(** * graph_motion: commanded motion, belt-as-spring estimate and smoothing filters

    A shallow embedding of [scripts/graph_motion.py].  The script is
    written once, over Python numbers; the embedding is written once,
    over an interface [Num] of the arithmetic the script uses, and run
    at two instances:

    - [float_num]: IEEE binary64 ([PrimFloat]), which is what a Python
      [float] is.  Everything the script computes on its fixed move
      list is evaluated here.
    - [Qc_num]: the same operations carried out exactly on rationals.
      Every finite float is a rational, so this is the script run
      without rounding; the algebraic identities behind the kernels
      and the filter weights are stated here.

    Python exceptions are values of [res]; list indexing follows Python
    (a negative index counts from the end, an index past the end
    raises); the [while] loop of the generator takes fuel. *)

From Stdlib Require Import ZArith QArith Qcanon Floats Lia.
From stdpp Require Import base list list_numbers.

Set Default Proof Using "Type".
Local Open Scope Z_scope.

(** ** Python exceptions and the error monad *)

Inductive pyerr : Set :=
| ZeroDivisionError
| IndexError
| OverflowError
| ValueError.

Inductive res (A : Type) : Type :=
| Ok (a : A)
| Raise (e : pyerr).
Arguments Ok {A} a.
Arguments Raise {A} e.

Global Instance res_ret : MRet res := @Ok.
Global Instance res_bind : MBind res := λ A B f m,
  match m with Ok a => f a | Raise e => Raise e end.
Global Instance res_fmap : FMap res := λ A B f m,
  match m with Ok a => Ok (f a) | Raise e => Raise e end.

Definition is_ok {A} (m : res A) : bool :=
  match m with Ok _ => true | Raise _ => false end.

(** [for x in xs: st = body st x], stopping at the first exception. *)
Fixpoint for_each {A S} (xs : list A) (st : S) (body : S → A → res S) : res S :=
  match xs with
  | [] => Ok st
  | x :: xs' => st' ← body st x; for_each xs' st' body
  end.

(** A list comprehension [[f x for x in xs]] whose body may raise. *)
Fixpoint comprehension {A B} (f : A → res B) (xs : list A) : res (list B) :=
  match xs with
  | [] => Ok []
  | x :: xs' => y ← f x; ys ← comprehension f xs'; Ok (y :: ys)
  end.

(** ** Python lists *)

(** [range(a, b)]. *)
Definition range (a b : Z) : list Z := seqZ a (b - a).

Definition len {A} (l : list A) : Z := Z.of_nat (length l).

(** How a subscript [l[i]] resolves: Python adds [len(l)] to a negative
    index once, and raises [IndexError] when the result is still out of
    range. *)
Definition resolve_index (n i : Z) : res Z :=
  let j := if i <? 0 then i + n else i in
  if (0 <=? j) && (j <? n) then Ok j else Raise IndexError.

(** A subscript that refuses every index outside [0, len(l)): the
    reading of [l[i]] in which a negative index is an error too. *)
Definition resolve_index_strict (n i : Z) : res Z :=
  if (0 <=? i) && (i <? n) then Ok i else Raise IndexError.

Section Subscript.
Context {A : Type}.
Variable resolve : Z → Z → res Z.

Definition getitem_with (l : list A) (i : Z) : res A :=
  j ← resolve (len l) i;
  match l !! Z.to_nat j with
  | Some v => Ok v
  | None => Raise IndexError
  end.

Definition setitem_with (l : list A) (i : Z) (v : A) : res (list A) :=
  j ← resolve (len l) i;
  Ok (<[Z.to_nat j := v]> l).

End Subscript.

(** A slice bound: negative bounds count from the end, and every bound
    is clamped into [0, len]. *)
Definition clamp_bound (n i : Z) : Z :=
  if i <? 0 then Z.max (i + n) 0 else Z.min i n.

(** [l[a:b]]: never raises. *)
Definition py_slice {A} (l : list A) (a b : Z) : list A :=
  let a' := clamp_bound (len l) a in
  let b' := clamp_bound (len l) b in
  take (Z.to_nat (b' - a')) (drop (Z.to_nat a') l).

(** [del l[k:]]: what is left of [l]. *)
Definition py_del_from {A} (l : list A) (k : Z) : list A :=
  take (Z.to_nat (clamp_bound (len l) k)) l.

(** ** The arithmetic the script uses *)

Class Num (F : Type) : Type := {
  fzero : F;
  fone : F;
  fadd : F → F → F;
  fsub : F → F → F;
  fmul : F → F → F;
  (** the quotient where the divisor is not zero *)
  fdiv : F → F → F;
  fopp : F → F;
  fabs : F → F;
  (** [x == 0.] *)
  fis_zero : F → bool;
  (** [x <= y] and [x < y] *)
  fle : F → F → bool;
  flt : F → F → bool;
  (** [float(z)], and whether it is representable ([OverflowError] if not) *)
  of_Z : Z → F;
  int_fits : Z → bool;
  (** [int(x)]: truncation towards zero *)
  to_int : F → res Z
}.

(** Arithmetic on numbers is written with dotted operators, integer
    arithmetic (indices, offsets) with the plain ones. *)
Infix "+." := fadd (at level 50, left associativity).
Infix "-." := fsub (at level 50, left associativity).
Infix "*." := fmul (at level 40, left associativity).
Infix "/." := fdiv (at level 40, left associativity).
Notation "-. x" := (fopp x) (at level 35, right associativity).

(** [math.pi] and [math.sqrt], which only the spring constants use. *)
Class Trans (F : Type) : Type := {
  fpi : F;
  fsqrt : F → F
}.

(** ** The script *)

Section Script.
Context {F : Type} `{Num F}.

(** A decimal literal [n/d] (such as [.5] or [6.869]): the number
    nearest to the quotient. *)
Definition lit (n d : Z) : F := of_Z n /. of_Z d.

(** [x / y] on floats. *)
Definition pydiv (x y : F) : res F :=
  if fis_zero y then Raise ZeroDivisionError else Ok (x /. y).

(** The coercion of an [int] operand in mixed arithmetic. *)
Definition pyfloat (z : Z) : res F :=
  if int_fits z then Ok (of_Z z) else Raise OverflowError.

(** [sum(l)]: a left fold from zero. *)
Definition pysum (l : list F) : F := foldl fadd fzero l.

Definition SEG_TIME : F := lit 1 10000.
Definition INV_SEG_TIME : F := fone /. SEG_TIME.

(** *** Basic trapezoid motion *)

(** A move [(start_v, end_v, move_t)]; [None] is Python's [None]. *)
Definition move : Type := F * F * option F.

Definition Moves : list move :=
  [ (fzero, fzero, Some (lit 100 1000));
    (lit 6869 1000, lit 89443 1000, None);
    (lit 89443 1000, lit 89443 1000, Some (lit 200 1000));
    (lit 89443 1000, lit 17361 1000, None);
    (lit 19410 1000, of_Z 100, None);
    (of_Z 100, of_Z 100, Some (lit 200 1000));
    (of_Z 100, of_Z 5, None);
    (fzero, fzero, Some (lit 300 1000)) ].

Definition ACCEL : F := of_Z 3000.

Definition kernel : Type := F → F → F → F → res F.

Definition get_acc_pos_ao2 : kernel := λ rel_t start_v accel move_t,
  Ok ((start_v +. lit 1 2 *. accel *. rel_t) *. rel_t).

Definition get_acc_pos_ao4 : kernel := λ rel_t start_v accel move_t,
  inv_accel_t ← pydiv fone move_t;
  let accel_div_accel_t := accel *. inv_accel_t in
  let accel_div_accel_t2 := accel_div_accel_t *. inv_accel_t in
  let c4 := -. lit 1 2 *. accel_div_accel_t2 in
  let c3 := accel_div_accel_t in
  let c1 := start_v in
  Ok (((c4 *. rel_t +. c3) *. rel_t *. rel_t +. c1) *. rel_t).

Definition get_acc_pos_ao6 : kernel := λ rel_t start_v accel move_t,
  inv_accel_t ← pydiv fone move_t;
  let accel_div_accel_t := accel *. inv_accel_t in
  let accel_div_accel_t2 := accel_div_accel_t *. inv_accel_t in
  let accel_div_accel_t3 := accel_div_accel_t2 *. inv_accel_t in
  let accel_div_accel_t4 := accel_div_accel_t3 *. inv_accel_t in
  let c6 := accel_div_accel_t4 in
  let c5 := -. of_Z 3 *. accel_div_accel_t3 in
  let c4 := lit 25 10 *. accel_div_accel_t2 in
  let c1 := start_v in
  Ok ((((c6 *. rel_t +. c5) *. rel_t +. c4) *. rel_t *. rel_t *. rel_t +. c1) *. rel_t).

Definition get_acc_pos : kernel := get_acc_pos_ao2.

(** The locals of [gen_positions] that live across segments. *)
Record gen_state : Type := GenState {
  gs_out : list F;
  gs_start_d : F;
  gs_start_t : F;
  gs_t : F
}.

(** [while t <= end_t: ...]; [None] when the fuel runs out. *)
Fixpoint emit_samples (fuel : nat) (pos : kernel) (start_v accel move_t end_t : F)
    (st : gen_state) : option (res gen_state) :=
  match fuel with
  | O => None
  | S fuel' =>
    if fle (gs_t st) end_t then
      let rel_t := gs_t st -. gs_start_t st in
      match pos rel_t start_v accel move_t with
      | Raise e => Some (Raise e)
      | Ok d =>
        emit_samples fuel' pos start_v accel move_t end_t
          (GenState (gs_out st ++ [gs_start_d st +. d]) (gs_start_d st)
                    (gs_start_t st) (gs_t st +. SEG_TIME))
      end
    else Some (Ok st)
  end.

(** The duration of a move: given, or derived from the velocity change. *)
Definition move_duration (m : move) : F :=
  let '(start_v, end_v, move_t) := m in
  match move_t with
  | Some move_t => move_t
  | None => fabs (end_v -. start_v) /. ACCEL
  end.

Definition move_accel (m : move) : F :=
  let '(start_v, end_v, _) := m in
  if flt start_v end_v then ACCEL
  else if flt end_v start_v then -. ACCEL
  else fzero.

(** One iteration of [for start_v, end_v, move_t in Moves]. *)
Definition gen_segment (fuel : nat) (pos : kernel) (st : gen_state) (m : move)
    : option (res gen_state) :=
  let start_v := m.1.1 in
  let move_t := move_duration m in
  let accel := move_accel m in
  let end_t := gs_start_t st +. move_t in
  match emit_samples fuel pos start_v accel move_t end_t st with
  | None => None
  | Some (Raise e) => Some (Raise e)
  | Some (Ok st') =>
    match pos move_t start_v accel move_t with
    | Raise e => Some (Raise e)
    | Ok d => Some (Ok (GenState (gs_out st') (gs_start_d st' +. d) end_t (gs_t st')))
    end
  end.

Fixpoint gen_segments (fuel : nat) (pos : kernel) (st : gen_state) (ms : list move)
    : option (res gen_state) :=
  match ms with
  | [] => Some (Ok st)
  | m :: ms' =>
    match gen_segment fuel pos st m with
    | Some (Ok st') => gen_segments fuel pos st' ms'
    | r => r
    end
  end.

Definition gen_init : gen_state := GenState [] fzero fzero fzero.

(** [gen_positions()], for a kernel and a move list; each [while] loop
    may take [fuel] iterations. *)
Definition gen_positions_of (fuel : nat) (pos : kernel) (ms : list move)
    : option (res (list F)) :=
  match gen_segments fuel pos gen_init ms with
  | None => None
  | Some (Raise e) => Some (Raise e)
  | Some (Ok st) => Some (Ok (gs_out st))
  end.

Definition gen_positions (fuel : nat) : option (res (list F)) :=
  gen_positions_of fuel get_acc_pos Moves.

(** *** Estimated motion with belt as spring *)

Definition SPRING_FREQ : F := of_Z 35.
Definition DAMPING : F := of_Z 30.

(** [x**2] on a float. *)
Definition fsquare (x : F) : F := x *. x.

Section Spring.
Context `{Trans F}.

Definition ang_freq2 : F := fsquare (SPRING_FREQ *. of_Z 2 *. fpi).

(** The locals [head_pos], [head_v] and [out] of [estimate_spring]. *)
Record spring_state : Type := SpringState {
  sp_head_pos : F;
  sp_head_v : F;
  sp_out : list F
}.

(** The body of [for stepper_pos in positions]. *)
Definition spring_step (st : spring_state) (stepper_pos : F) : spring_state :=
  let head_pos := sp_head_pos st +. sp_head_v st *. SEG_TIME in
  let head_a := (stepper_pos -. head_pos) *. ang_freq2 in
  let head_v := sp_head_v st +. head_a *. SEG_TIME in
  let head_v := head_v -. head_v *. DAMPING *. SEG_TIME in
  SpringState head_pos head_v (sp_out st ++ [head_pos]).

Definition estimate_spring (positions : list F) : list F :=
  sp_out (foldl spring_step (SpringState fzero fzero []) positions).

End Spring.
(** *** List helper functions *)

Definition MARGIN_TIME : F := lit 50 1000.

Definition time_to_index (t : F) : res Z :=
  to_int (t *. INV_SEG_TIME +. lit 1 2).

(** The lists that [trim_lists] cuts are objects: the same list may be
    passed twice.  A store holds the lists, a reference is a position
    in the store. *)
Definition deref (h : list (list F)) (r : nat) : list F := default [] (h !! r).

Definition trim_lists (lists : list nat) (h : list (list F)) : res (list (list F)) :=
  match lists with
  | [] => Raise IndexError
  | first :: _ =>
    cut ← time_to_index (of_Z 2 *. MARGIN_TIME);
    let keep := len (deref h first) - cut in
    for_each lists h (λ h l, Ok (alter (λ l, py_del_from l keep) l h))
  end.

Section Filters.
(** How a subscript resolves its index: [resolve_index] is Python. *)
Variable subscript : Z → Z → res Z.

Let getitem := getitem_with (A:=F) subscript.
Let setitem := setitem_with (A:=F) subscript.

Definition indexes (positions : list F) : res (list Z) :=
  drop ← time_to_index MARGIN_TIME;
  Ok (range drop (len positions - drop)).

(** *** Common data filters *)

Definition gen_deriv_sub (data : list F) : res (list F) :=
  rest ← comprehension (λ i,
            a ← getitem data (i + 1);
            b ← getitem data i;
            Ok ((a -. b) *. INV_SEG_TIME))
          (range 0 (len data - 1));
  Ok ([fzero] ++ rest).

(** The loop every filter ends with:
    [out = [0.] * len(positions)]
    [for i in indexes(positions): out[i] = value(i)]. *)
Definition fill_indexes (positions : list F) (value : Z → res F) : res (list F) :=
  let out := replicate (length positions) fzero in
  idx ← indexes positions;
  for_each idx out (λ out i, v ← value i; setitem out i v).

Definition calc_average_sub (positions : list F) (smooth_time : F) : res (list F) :=
  offset ← time_to_index (smooth_time *. lit 1 2);
  fill_indexes positions (λ i,
    a ← getitem positions (i - offset);
    b ← getitem positions (i + offset);
    Ok (lit 1 2 *. (a +. b))).

Definition calc_smooth_sub (positions : list F) (smooth_time : F) : res (list F) :=
  offset ← time_to_index (smooth_time *. lit 1 2);
  o ← pyfloat offset;
  weight ← pydiv (lit 1 2) o;
  fill_indexes positions (λ i,
    Ok (pysum (py_slice positions (i - offset) (i + offset)) *. weight)).

Definition weighted_term (positions : list F) (offset i j : Z) : res F :=
  pj ← getitem positions j;
  w ← pyfloat (offset - Z.abs (j - i));
  Ok (pj *. w).

Definition calc_weighted_sub (positions : list F) (smooth_time : F) : res (list F) :=
  offset ← time_to_index (smooth_time *. lit 1 2);
  o2 ← pyfloat (offset ^ 2);
  weight ← pydiv fone o2;
  fill_indexes positions (λ i,
    weighted_data ← comprehension (weighted_term positions offset i)
                      (range (i - offset) (i + offset));
    Ok (pysum weighted_data *. weight)).

Definition weighted2_term (positions : list F) (offset i j : Z) : res F :=
  pj ← getitem positions j;
  w ← pyfloat ((offset - Z.abs (j - i)) ^ 2);
  let left := pj *. w in
  a ← pyfloat (Z.abs (j - i));
  o ← pyfloat offset;
  Ok (left *. (of_Z 2 *. a +. o)).

Definition calc_weighted2_sub (positions : list F) (smooth_time : F) : res (list F) :=
  offset ← time_to_index (smooth_time *. lit 1 2);
  o4 ← pyfloat (offset ^ 4);
  weight ← pydiv fone o4;
  fill_indexes positions (λ i,
    weighted_data ← comprehension (weighted2_term positions offset i)
                      (range (i - offset) (i + offset));
    Ok (pysum weighted_data *. weight)).

(** *** Spring motion estimation *)

(** The two module globals that are bound twice while the module
    loads: first at lines 175-176, then again under "Ideal values". *)
Record spring_globals : Type := SpringGlobals {
  SPRING_ADVANCE : F;
  RESISTANCE_ADVANCE : F
}.

Definition calc_spring_raw_sub (g : spring_globals) (positions : list F)
    : res (list F) :=
  let sa := SPRING_ADVANCE g *. INV_SEG_TIME *. INV_SEG_TIME in
  let ra := RESISTANCE_ADVANCE g *. INV_SEG_TIME in
  fill_indexes positions (λ i,
    p0 ← getitem positions i;
    pm ← getitem positions (i - 1);
    p1 ← getitem positions i;
    pp ← getitem positions (i + 1);
    pq ← getitem positions (i + 1);
    p2 ← getitem positions i;
    Ok (p0 +. sa *. (pm -. of_Z 2 *. p1 +. pp) +. ra *. (pq -. p2))).

End Filters.

(** The functions as Python runs them. *)
Definition gen_deriv := gen_deriv_sub resolve_index.
Definition calc_average := calc_average_sub resolve_index.
Definition calc_smooth := calc_smooth_sub resolve_index.
Definition calc_weighted := calc_weighted_sub resolve_index.
Definition calc_weighted2 := calc_weighted2_sub resolve_index.
Definition calc_spring_raw := calc_spring_raw_sub resolve_index.

Section Ideal.
Context `{Trans F}.

(** The globals as the first binding leaves them. *)
Definition globals_first : spring_globals :=
  SpringGlobals (lit 2 100000) fzero.

(** The globals once the module has loaded: every function is called
    after that, and reads these. *)
Definition globals_loaded : spring_globals :=
  let g := globals_first in
  let g := SpringGlobals (fone /. fsquare (SPRING_FREQ *. of_Z 2 *. fpi))
                         (RESISTANCE_ADVANCE g) in
  let g := SpringGlobals (SPRING_ADVANCE g) (DAMPING *. SPRING_ADVANCE g) in
  g.

Definition SMOOTH_TIME : F :=
  (of_Z 2 /. of_Z 3) *. of_Z 2 *. fpi *. fsqrt (SPRING_ADVANCE globals_loaded).

Definition gen_updated_position (positions : list F) : res (list F) :=
  raw ← calc_spring_raw globals_loaded positions;
  calc_weighted2 raw SMOOTH_TIME.

(** *** Plotting *)

(** The references of the lists [plot_motion] passes to [trim_lists],
    in the order the store holds them. *)
Definition r_times : nat := 0.
Definition r_velocities : nat := 1.
Definition r_accels : nat := 2.
Definition r_upd_velocities : nat := 3.
Definition r_upd_accels : nat := 4.
Definition r_spring_diff_orig : nat := 5.
Definition r_spring_diff_upd : nat := 6.
Definition r_head_velocities : nat := 7.
Definition r_head_upd_velocities : nat := 8.
Definition r_head_accels : nat := 9.
Definition r_head_upd_accels : nat := 10.

(** [plot_motion] from the nominal positions down to the call of
    [trim_lists]; what follows in the source only draws the lists. *)
Definition plot_lists (positions : list F) : res (list (list F)) :=
  velocities ← gen_deriv positions;
  accels ← gen_deriv velocities;
  upd_positions ← gen_updated_position positions;
  upd_velocities ← gen_deriv upd_positions;
  upd_accels ← gen_deriv upd_velocities;
  let spring_orig := estimate_spring positions in
  let spring_upd := estimate_spring upd_positions in
  let spring_diff_orig := zip_with (λ n o, n -. o) spring_orig positions in
  let spring_diff_upd := zip_with (λ n o, n -. o) spring_upd positions in
  head_velocities ← gen_deriv spring_orig;
  head_accels ← gen_deriv head_velocities;
  head_upd_velocities ← gen_deriv spring_upd;
  head_upd_accels ← gen_deriv head_upd_velocities;
  times ← comprehension (λ i, x ← pyfloat i; Ok (SEG_TIME *. x))
            (range 0 (len positions));
  trim_lists
    [r_times; r_velocities; r_accels;
     r_upd_velocities; r_upd_velocities; r_upd_accels;
     r_spring_diff_orig; r_spring_diff_upd;
     r_head_velocities; r_head_upd_velocities;
     r_head_accels; r_head_upd_accels]
    [times; velocities; accels; upd_velocities; upd_accels;
     spring_diff_orig; spring_diff_upd;
     head_velocities; head_upd_velocities; head_accels; head_upd_accels].

Definition plot_motion (fuel : nat) : option (res (list (list F))) :=
  match gen_positions fuel with
  | None => None
  | Some (Raise e) => Some (Raise e)
  | Some (Ok positions) => Some (plot_lists positions)
  end.

(** The largest absolute value of a list. *)
Definition peak (l : list F) : F :=
  foldl (λ m x, if flt m (fabs x) then fabs x else m) fzero l.

End Ideal.
End Script.

(** ** Python floats: IEEE binary64 *)

Module Float.

(** [float(z)]: the nearest double, ties to even. *)
Definition float_of_Z (z : Z) : float :=
  SF2Prim (binary_normalize prec emax z 0 false).

(** [float(z)] raises [OverflowError] from [2**1024 - 2**970] on, the
    first integer that rounds past the largest double. *)
Definition float_fits (z : Z) : bool :=
  Z.abs z <? 2 ^ 1024 - 2 ^ 970.

(** [int(x)]: towards zero; [OverflowError] on an infinity,
    [ValueError] on a NaN. *)
Definition float_to_int (x : float) : res Z :=
  match Prim2SF x with
  | S754_zero _ => Ok 0
  | S754_infinity _ => Raise OverflowError
  | S754_nan => Raise ValueError
  | S754_finite s m e =>
    let v := Z.shiftl (Z.pos m) e in
    Ok (if s then - v else v)
  end.

Global Instance float_num : Num float := {|
  fzero := 0%float;
  fone := 1%float;
  fadd := PrimFloat.add;
  fsub := PrimFloat.sub;
  fmul := PrimFloat.mul;
  fdiv := PrimFloat.div;
  fopp := PrimFloat.opp;
  fabs := PrimFloat.abs;
  fis_zero := λ x, PrimFloat.eqb x 0%float;
  fle := PrimFloat.leb;
  flt := PrimFloat.ltb;
  of_Z := float_of_Z;
  int_fits := float_fits;
  to_int := float_to_int
|}.

(** [math.pi] is the double nearest to pi; [math.sqrt] is the
    correctly rounded square root. *)
Global Instance float_trans : Trans float := {|
  fpi := 0x1.921fb54442d18p+1%float;
  fsqrt := PrimFloat.sqrt
|}.

End Float.

(** ** Exact arithmetic: the rationals *)

Module Exact.

Definition Qc_to_int (x : Qc) : res Z :=
  Ok (Z.quot (Qnum (this x)) (Z.pos (Qden (this x)))).

Definition Qc_abs (x : Qc) : Qc :=
  if Qclt_le_dec x 0%Qc then (- x)%Qc else x.

Definition Qc_leb (x y : Qc) : bool := bool_decide (x ≤ y)%Qc.
Definition Qc_ltb (x y : Qc) : bool := bool_decide (x < y)%Qc.

Global Instance Qc_num : Num Qc := {|
  fzero := 0%Qc;
  fone := 1%Qc;
  fadd := Qcplus;
  fsub := Qcminus;
  fmul := Qcmult;
  fdiv := Qcdiv;
  fopp := Qcopp;
  fabs := Qc_abs;
  fis_zero := λ x, bool_decide (x = 0%Qc);
  fle := Qc_leb;
  flt := Qc_ltb;
  of_Z := Qc_of_Z;
  int_fits := λ _, true;
  to_int := Qc_to_int
|}.

End Exact.

(** ** Vocabulary of the statements *)

(** A resolver is exact when it leaves every index of [0, n) as it is;
    both resolvers are. *)
Definition sub_exact (sub : Z → Z → res Z) : Prop :=
  ∀ n i, 0 ≤ i < n → sub n i = Ok i.

(** The sum of a list of integers. *)
Definition sumZ (l : list Z) : Z := foldr Z.add 0 l.

(** Two runs of a filter, one with strict subscripts and one with
    Python's, agree when they are equal and no subscript was refused:
    the Python run then read no index outside [0, len). *)
Definition reads_in_bounds {A} (strict python : res A) : Prop :=
  strict = python ∧ python ≠ Raise IndexError.

Section Vocabulary.
Context {F : Type} `{Num F}.

(** [l[i]] for an index known to be in range. *)
Definition at_ (l : list F) (i : Z) : F := default fzero (l !! Z.to_nat i).

(** The list of length [n] that holds [v k] at the indices [d <= k < s]
    and zero elsewhere: the output of a filter loop that has reached
    index [s]. *)
Definition partial (d s n : Z) (v : Z → F) : list F :=
  (λ k, if (d <=? k) && (k <? s) then v k else fzero) <$> seqZ 0 n.

(** The finished output: [v] on [d, n - d), zero on both margins. *)
Definition filled (d n : Z) (v : Z → F) : list F := partial d (n - d) n v.

(** [out] is zero at every index outside [d, len(out) - d). *)
Definition zero_outside (d : Z) (out : list F) : Prop :=
  ∀ (k : nat) x, out !! k = Some x → ¬ (d ≤ Z.of_nat k < len out - d) → x = fzero.

(** The [n] elements of [l] from index [a] on. *)
Definition window (l : list F) (a n : Z) : list F :=
  take (Z.to_nat n) (drop (Z.to_nat a) l).

(** [float(z)] is representable for every integer of [0, b]. *)
Definition fits_upto (b : Z) : Prop :=
  ∀ z, 0 ≤ z ≤ b → int_fits z = true.

(** What each filter stores at an index [i] whose accesses are all in
    range, with the exceptions gone. *)
Definition average_value (positions : list F) (offset i : Z) : F :=
  lit 1 2 *. (at_ positions (i - offset) +. at_ positions (i + offset)).

Definition smooth_value (positions : list F) (offset : Z) (weight : F) (i : Z) : F :=
  pysum (py_slice positions (i - offset) (i + offset)) *. weight.

Definition weighted_value (positions : list F) (offset : Z) (weight : F) (i : Z) : F :=
  pysum (zip_with (λ pj j, pj *. of_Z (offset - Z.abs (j - i)))
           (window positions (i - offset) (2 * offset))
           (range (i - offset) (i + offset)))
  *. weight.

Definition weighted2_value (positions : list F) (offset : Z) (weight : F) (i : Z) : F :=
  pysum (zip_with (λ pj j, pj *. of_Z ((offset - Z.abs (j - i)) ^ 2)
                           *. (of_Z 2 *. of_Z (Z.abs (j - i)) +. of_Z offset))
           (window positions (i - offset) (2 * offset))
           (range (i - offset) (i + offset)))
  *. weight.

Definition spring_raw_value (g : spring_globals) (positions : list F) (i : Z) : F :=
  let sa := SPRING_ADVANCE g *. INV_SEG_TIME *. INV_SEG_TIME in
  let ra := RESISTANCE_ADVANCE g *. INV_SEG_TIME in
  at_ positions i
  +. sa *. (at_ positions (i - 1) -. of_Z 2 *. at_ positions i +. at_ positions (i + 1))
  +. ra *. (at_ positions (i + 1) -. at_ positions i).

(** What [calc_smooth], [calc_weighted] and [calc_weighted2] store at
    an index whose whole window holds one value [c]: the window
    formula on [c], which does not depend on the index. *)
Definition smooth_response (c : F) (offset : Z) : F :=
  pysum (replicate (Z.to_nat (2 * offset)) c) *. (lit 1 2 /. of_Z offset).

Definition weighted_response (c : F) (offset : Z) : F :=
  pysum ((λ d, c *. of_Z (offset - Z.abs d)) <$> seqZ (- offset) (2 * offset))
  *. (fone /. of_Z (offset ^ 2)).

Definition weighted2_response (c : F) (offset : Z) : F :=
  pysum ((λ d, c *. of_Z ((offset - Z.abs d) ^ 2)
               *. (of_Z 2 *. of_Z (Z.abs d) +. of_Z offset))
         <$> seqZ (- offset) (2 * offset))
  *. (fone /. of_Z (offset ^ 4)).

(** What [gen_deriv] stores after its leading zero, at index [i + 1]. *)
Definition deriv_value (data : list F) (i : Z) : F :=
  (at_ data (i + 1) -. at_ data i) *. INV_SEG_TIME.

(** The two factors [calc_weighted2] multiplies a sample by, for each
    distance [d = j - i] of the window in turn: they do not depend on
    [i], and evaluating the filter computes them once. *)
Definition weighted2_weights (offset : Z) : list (F * F) :=
  (λ d, (of_Z ((offset - Z.abs d) ^ 2),
         of_Z 2 *. of_Z (Z.abs d) +. of_Z offset))
  <$> seqZ (- offset) (2 * offset).

Definition weighted2_value_fast (positions : list F) (offset : Z) (weight : F)
    (ws : list (F * F)) (i : Z) : F :=
  pysum (zip_with (λ pj w, pj *. w.1 *. w.2)
           (window positions (i - offset) (2 * offset)) ws)
  *. weight.

(** [spring_raw_value] with the three samples found in one pass. *)
Definition spring_raw_value_fast (sa ra two : F) (positions : list F) (i : Z) : F :=
  match drop (Z.to_nat (i - 1)) positions with
  | pm :: p0 :: pp :: _ =>
    p0 +. sa *. (pm -. two *. p0 +. pp) +. ra *. (pp -. p0)
  | _ => fzero
  end.

(** The constant-acceleration displacement [v0*T + 0.5*a*T^2]. *)
Definition displacement_closed_form (v0 a T : F) : F :=
  v0 *. T +. lit 1 2 *. a *. (T *. T).

(** [r] is a value, within the relative tolerance [tol] of [x]. *)
Definition within (tol : F) (r : res F) (x : F) : bool :=
  match r with
  | Ok y => fle (fabs (y -. x)) (tol *. fabs x)
  | Raise _ => false
  end.

End Vocabulary.

(** ** The estimator in the words of the specification

    The specification describes the estimator as a state
    [head_position], [head_velocity] and four updates per sample.
    These definitions follow that text, not the source; the theorem
    about [estimate_spring] compares the two. *)

Section SpecEstimator.
Context {F : Type} `{Num F} `{Trans F}.
Variables natural_frequency damping_coefficient SAMPLE_PERIOD : F.

Record estimator : Type := Estimator {
  head_position : F;
  head_velocity : F
}.

Definition estimator_start : estimator := Estimator fzero fzero.

(** (1) [head_position += head_velocity * SAMPLE_PERIOD] *)
Definition update_1 (e : estimator) : estimator :=
  Estimator (head_position e +. head_velocity e *. SAMPLE_PERIOD) (head_velocity e).

(** (2) [head_acceleration = (commanded[i] - head_position) * (2*pi*natural_frequency)^2] *)
Definition update_2 (e : estimator) (commanded_i : F) : F :=
  (commanded_i -. head_position e)
  *. fsquare (of_Z 2 *. fpi *. natural_frequency).

(** (3) [head_velocity += head_acceleration * SAMPLE_PERIOD] *)
Definition update_3 (e : estimator) (head_acceleration : F) : estimator :=
  Estimator (head_position e) (head_velocity e +. head_acceleration *. SAMPLE_PERIOD).

(** (4) [head_velocity -= head_velocity * damping_coefficient * SAMPLE_PERIOD] *)
Definition update_4 (e : estimator) : estimator :=
  Estimator (head_position e)
    (head_velocity e -. head_velocity e *. damping_coefficient *. SAMPLE_PERIOD).

(** The four updates, in order, for one sample. *)
Definition sample_updates (e : estimator) (commanded_i : F) : estimator :=
  let e1 := update_1 e in
  let head_acceleration := update_2 e1 commanded_i in
  let e3 := update_3 e1 head_acceleration in
  update_4 e3.

(** The state when sample [i] is about to be processed. *)
Fixpoint estimator_before (commanded : list F) (i : nat) : estimator :=
  match i with
  | O => estimator_start
  | S k =>
    match commanded !! k with
    | Some c => sample_updates (estimator_before commanded k) c
    | None => estimator_before commanded k
    end
  end.

(** Output sample [i]: the [head_position] that update (1) produces
    for index [i]. *)
Definition estimator_output (commanded : list F) (i : nat) : F :=
  head_position (update_1 (estimator_before commanded i)).

End SpecEstimator.

(** ** Vocabulary on floats *)

Section FloatVocabulary.
Import Float.

(** Neither an infinity nor a NaN. *)
Definition finite (x : float) : bool :=
  match Prim2SF x with
  | S754_zero _ | S754_finite _ _ _ => true
  | _ => false
  end.

(** The same float, or two zeros (which may differ in sign). *)
Definition same (x y : float) : Prop :=
  x = y ∨ (fis_zero x = true ∧ fis_zero y = true).

(** [float(z)] is not zero for the integers a window offset within the
    margin gives rise to: checked on each of them. *)
Definition nonzero_powers (o : Z) : bool :=
  negb (fis_zero (of_Z o : float))
  && negb (fis_zero (of_Z (o ^ 2) : float))
  && negb (fis_zero (of_Z (o ^ 4) : float)).

End FloatVocabulary.

(** ** Forms that evaluate in one pass

    The model above follows the script statement by statement:
    [out.append(x)] is [out ++ [x]], and each filter reads its window
    by index.  Evaluated on the nine thousand samples of the move list
    that costs a quadratic number of steps.  The definitions of this
    section compute the same values in one pass over the list; each is
    proved equal to its model before it is evaluated. *)

Section Linear.
Context {F : Type} `{Num F}.

(** [emit_samples] with [out] kept in reverse. *)
Fixpoint emit_samples_rev (fuel : nat) (pos : kernel) (start_v accel move_t end_t : F)
    (st : gen_state) : option (res gen_state) :=
  match fuel with
  | O => None
  | S fuel' =>
    if fle (gs_t st) end_t then
      let rel_t := gs_t st -. gs_start_t st in
      match pos rel_t start_v accel move_t with
      | Raise e => Some (Raise e)
      | Ok d =>
        emit_samples_rev fuel' pos start_v accel move_t end_t
          (GenState ((gs_start_d st +. d) :: gs_out st) (gs_start_d st)
                    (gs_start_t st) (gs_t st +. SEG_TIME))
      end
    else Some (Ok st)
  end.

Definition gen_segment_rev (fuel : nat) (pos : kernel) (st : gen_state) (m : move)
    : option (res gen_state) :=
  let start_v := m.1.1 in
  let move_t := move_duration m in
  let accel := move_accel m in
  let end_t := gs_start_t st +. move_t in
  match emit_samples_rev fuel pos start_v accel move_t end_t st with
  | None => None
  | Some (Raise e) => Some (Raise e)
  | Some (Ok st') =>
    match pos move_t start_v accel move_t with
    | Raise e => Some (Raise e)
    | Ok d => Some (Ok (GenState (gs_out st') (gs_start_d st' +. d) end_t (gs_t st')))
    end
  end.

Fixpoint gen_segments_rev (fuel : nat) (pos : kernel) (st : gen_state) (ms : list move)
    : option (res gen_state) :=
  match ms with
  | [] => Some (Ok st)
  | m :: ms' =>
    match gen_segment_rev fuel pos st m with
    | Some (Ok st') => gen_segments_rev fuel pos st' ms'
    | r => r
    end
  end.

Definition gen_positions_rev (fuel : nat) : option (res (list F)) :=
  match gen_segments_rev fuel get_acc_pos gen_init Moves with
  | None => None
  | Some (Raise e) => Some (Raise e)
  | Some (Ok st) => Some (Ok (reverse (gs_out st)))
  end.

(** The state of the generator whose output is kept in reverse. *)
Definition unrev (st : gen_state (F:=F)) : gen_state (F:=F) :=
  GenState (reverse (gs_out st)) (gs_start_d st) (gs_start_t st) (gs_t st).

Definition unrev_result (r : option (res (gen_state))) : option (res (gen_state)) :=
  match r with
  | Some (Ok st) => Some (Ok (unrev st))
  | r => r
  end.

(** [f] on every suffix of [l] in turn, [n] times: the window of a
    filter moving one sample at a time. *)
Fixpoint sliding (f : list F → F) (n : nat) (l : list F) : list F :=
  match n with
  | O => []
  | S n' => f l :: sliding f n' (tail l)
  end.

(** [spring_raw_value] at the index of the second sample of [l]. *)
Definition spring_raw_window (sa ra two : F) (l : list F) : F :=
  match l with
  | pm :: p0 :: pp :: _ =>
    p0 +. sa *. (pm -. two *. p0 +. pp) +. ra *. (pp -. p0)
  | _ => fzero
  end.

(** [weighted2_value] on the window that starts [l]. *)
Definition weighted2_window (ws : list (F * F)) (weight : F) (l : list F) : F :=
  pysum (zip_with (λ pj w, pj *. w.1 *. w.2) l ws) *. weight.

Context `{Trans F}.

(** The outputs of [estimate_spring] from a given head state. *)
Fixpoint spring_run (head_pos head_v : F) (positions : list F) : list F :=
  match positions with
  | [] => []
  | stepper_pos :: rest =>
    let st := spring_step (SpringState head_pos head_v []) stepper_pos in
    sp_head_pos st :: spring_run (sp_head_pos st) (sp_head_v st) rest
  end.

End Linear.

Section FloatForms.
Import Float.

(** The compensated positions, with each filter value computed from one [drop]. *)
Definition upd_positions_value (p : list float) : list float :=
  let g := globals_loaded in
  let sa := SPRING_ADVANCE g *. INV_SEG_TIME *. INV_SEG_TIME in
  let ra := RESISTANCE_ADVANCE g *. INV_SEG_TIME in
  let raw := filled 500 (len p) (spring_raw_value_fast sa ra (of_Z 2) p) in
  filled 500 (len p)
    (weighted2_value_fast raw 95 (fone /. of_Z (95 ^ 4)) (weighted2_weights 95)).

(** [upd_positions_value] with both filters as sliding windows. *)
Definition upd_positions_fast (p : list float) : list float :=
  let g := globals_loaded in
  let sa := SPRING_ADVANCE g *. INV_SEG_TIME *. INV_SEG_TIME in
  let ra := RESISTANCE_ADVANCE g *. INV_SEG_TIME in
  let n := Z.to_nat (len p - 2 * 500) in
  let zeros := replicate (Z.to_nat 500) (fzero : float) in
  let raw := zeros ++ sliding (spring_raw_window sa ra (of_Z 2)) n (drop (Z.to_nat (500 - 1)) p) ++ zeros in
  zeros ++ sliding (weighted2_window (weighted2_weights 95) (fone /. of_Z (95 ^ 4)))
             n (drop (Z.to_nat (500 - 95)) raw) ++ zeros.

(** What the acceptance property asks of a list of positions, as one
    boolean that evaluates. *)
Definition deviation_check (p : list float) : bool :=
  let n := Z.to_nat (len p - 1000) in
  (1000 <=? len p) && (len p <? 2 ^ 53)
  && flt (peak (take n (zip_with (λ n o, n -. o)
                          (spring_run fzero fzero (upd_positions_fast p)) p)))
         (peak (take n (zip_with (λ n o, n -. o) (spring_run fzero fzero p) p))).

End FloatForms.

(** * Facts about the runtime *)

Section RuntimeFacts.
Context {A B S : Type}.

Lemma comprehension_ok (f : A → res B) (g : A → B) (xs : list A) :
  (∀ x, x ∈ xs → f x = Ok (g x)) →
  comprehension f xs = Ok (g <$> xs).
Proof.
  induction xs as [|x xs IH]; intros Hf; [done|].
  cbn. rewrite (Hf x) by left. cbn.
  rewrite IH; [done|]. intros y Hy. apply Hf. by right.
Qed.

Lemma comprehension_length (f : A → res B) (xs : list A) (ys : list B) :
  comprehension f xs = Ok ys → length ys = length xs.
Proof.
  revert ys. induction xs as [|x xs IH]; intros ys; cbn.
  - by intros [= <-].
  - destruct (f x) as [y|]; cbn; [|done].
    destruct (comprehension f xs) as [ys'|]; cbn; [|done].
    intros [= <-]. cbn. f_equal. by apply IH.
Qed.

(** An invariant of a [for] loop holds of its result, when it returns. *)
Lemma for_each_invariant (P : S → Prop) (body : S → A → res S) (xs : list A) (st st' : S) :
  (∀ s x s', x ∈ xs → P s → body s x = Ok s' → P s') →
  P st → for_each xs st body = Ok st' → P st'.
Proof.
  revert st. induction xs as [|x xs IH]; intros st Hbody HP; cbn.
  - by intros [= <-].
  - destruct (body st x) as [s1|] eqn:Hs1; cbn; [|done].
    apply IH.
    + intros s y s' Hy. apply Hbody. by right.
    + eapply Hbody; [left|done..].
Qed.

End RuntimeFacts.

Lemma resolve_index_exact : sub_exact resolve_index.
Proof.
  intros n i Hi. unfold resolve_index.
  destruct (Z.ltb_spec i 0); [lia|].
  destruct (Z.leb_spec 0 i), (Z.ltb_spec i n); cbn; (done || lia).
Qed.

Lemma resolve_index_strict_exact : sub_exact resolve_index_strict.
Proof.
  intros n i Hi. unfold resolve_index_strict.
  destruct (Z.leb_spec 0 i), (Z.ltb_spec i n); cbn; (done || lia).
Qed.

Section SubscriptFacts.
Context {A : Type} (sub : Z → Z → res Z) (Hsub : sub_exact sub).

Lemma getitem_with_ok (l : list A) (i : Z) (x : A) :
  0 ≤ i → l !! Z.to_nat i = Some x → getitem_with sub l i = Ok x.
Proof using Hsub.
  intros Hi Hx. unfold getitem_with.
  apply lookup_lt_Some in Hx as Hlt.
  rewrite Hsub by (unfold len; lia). cbn. by rewrite Hx.
Qed.

Lemma setitem_with_ok (l : list A) (i : Z) (x : A) :
  0 ≤ i < len l → setitem_with sub l i x = Ok (<[Z.to_nat i := x]> l).
Proof using Hsub. intros Hi. unfold setitem_with. by rewrite Hsub. Qed.

End SubscriptFacts.

Section FillFacts.
Context {F : Type} `{Num F}.

Lemma length_partial d s n (v : Z → F) : length (partial d s n v) = Z.to_nat n.
Proof. unfold partial. by rewrite length_fmap, length_seqZ. Qed.

Lemma lookup_partial d s n (v : Z → F) (k : nat) :
  Z.of_nat k < n →
  partial d s n v !! k
  = Some (if (d <=? Z.of_nat k) && (Z.of_nat k <? s) then v (Z.of_nat k) else fzero).
Proof.
  intros Hk. unfold partial.
  rewrite list_lookup_fmap, lookup_seqZ_lt by done. cbn. by rewrite Z.add_0_l.
Qed.

Lemma partial_start d s n (v : Z → F) :
  s ≤ d → partial d s n v = replicate (Z.to_nat n) fzero.
Proof.
  intros Hs. apply list_eq. intros k.
  destruct (decide (Z.of_nat k < n)) as [Hk|Hk].
  - rewrite lookup_partial, lookup_replicate_2 by lia.
    destruct (Z.leb_spec d (Z.of_nat k)), (Z.ltb_spec (Z.of_nat k) s); cbn; (done || lia).
  - rewrite !lookup_ge_None_2; [done|rewrite length_replicate; lia|rewrite length_partial; lia].
Qed.

Lemma partial_step d s n (v : Z → F) :
  d ≤ s → 0 ≤ s < n →
  <[Z.to_nat s := v s]> (partial d s n v) = partial d (s + 1) n v.
Proof.
  intros Hd Hs. apply list_eq. intros k.
  destruct (decide (Z.of_nat k < n)) as [Hk|Hk].
  - destruct (decide (k = Z.to_nat s)) as [->|Hne].
    + rewrite list_lookup_insert_eq by (rewrite length_partial; lia).
      rewrite lookup_partial by lia. rewrite Z2Nat.id by lia.
      destruct (Z.leb_spec d s), (Z.ltb_spec s (s + 1)); cbn; (done || lia).
    + rewrite list_lookup_insert_ne by done.
      rewrite !lookup_partial by lia.
      destruct (Z.leb_spec d (Z.of_nat k)), (Z.ltb_spec (Z.of_nat k) s),
        (Z.ltb_spec (Z.of_nat k) (s + 1)); cbn; (done || lia).
  - rewrite !lookup_ge_None_2; [done|rewrite length_partial; lia|].
    rewrite length_insert, length_partial; lia.
Qed.

Lemma zero_outside_filled d n (v : Z → F) : 0 ≤ n → zero_outside d (filled d n v).
Proof.
  intros Hn k x Hx Hk. unfold filled in Hx, Hk.
  apply lookup_lt_Some in Hx as Hlt. rewrite length_partial in Hlt.
  rewrite lookup_partial in Hx by lia. injection Hx as <-.
  unfold len in Hk. rewrite length_partial, Z2Nat.id in Hk by done.
  destruct (Z.leb_spec d (Z.of_nat k)), (Z.ltb_spec (Z.of_nat k) (n - d)); cbn; (done || lia).
Qed.

End FillFacts.

(** * The loop shared by the filters *)

Section FillIndexes.
Context {F : Type} `{Num F}.

Lemma fill_loop (sub : Z → Z → res Z) (value : Z → res F) (v : Z → F) d n (m : nat) s :
  sub_exact sub →
  0 ≤ d ≤ s → s + Z.of_nat m ≤ n - d →
  (∀ i, d ≤ i < n - d → value i = Ok (v i)) →
  for_each (seqZ s (Z.of_nat m)) (partial d s n v)
    (λ out i, x ← value i; setitem_with sub out i x)
  = Ok (partial d (s + Z.of_nat m) n v).
Proof.
  intros Hsub Hd Hm Hv. revert s Hd Hm.
  induction m as [|m IH]; intros s Hd Hm.
  - rewrite seqZ_nil by lia. cbn. by rewrite Z.add_0_r.
  - rewrite seqZ_cons by lia. cbn.
    rewrite Hv by lia. cbn.
    rewrite setitem_with_ok; [|done|unfold len; rewrite length_partial; lia].
    cbn. rewrite partial_step by lia.
    replace (Z.pred (Z.of_nat (S m))) with (Z.of_nat m) by lia.
    replace (Z.succ s) with (s + 1) by lia.
    rewrite IH by lia. f_equal. f_equal. lia.
Qed.

(** When every value is computed without an exception, the loop
    returns the filled list. *)
Lemma fill_indexes_ok (sub : Z → Z → res Z) (positions : list F)
    (value : Z → res F) (v : Z → F) d :
  sub_exact sub →
  time_to_index MARGIN_TIME = Ok d → 0 ≤ d →
  (∀ i, d ≤ i < len positions - d → value i = Ok (v i)) →
  fill_indexes sub positions value = Ok (filled d (len positions) v).
Proof.
  intros Hsub Hd Hd0 Hv. unfold fill_indexes, indexes. rewrite Hd. cbn.
  unfold range, filled.
  destruct (decide (d ≤ len positions - d)) as [Hle|Hgt].
  - replace (replicate (length positions) fzero)
      with (partial d d (len positions) v)
      by (rewrite partial_start by lia; unfold len; by rewrite Nat2Z.id).
    replace (len positions - d - d) with (Z.of_nat (Z.to_nat (len positions - d - d))) by lia.
    rewrite (fill_loop sub value v d (len positions)); [|done|lia|lia|done].
    f_equal. f_equal. lia.
  - rewrite seqZ_nil by lia. cbn.
    rewrite partial_start by lia. unfold len. by rewrite Nat2Z.id.
Qed.

(** Whatever the values, a result of the loop has the length of the
    input and is zero outside [d, n - d). *)
Lemma fill_indexes_shape (sub : Z → Z → res Z) (positions : list F)
    (value : Z → res F) d (out : list F) :
  sub_exact sub →
  time_to_index MARGIN_TIME = Ok d → 0 ≤ d →
  fill_indexes sub positions value = Ok out →
  length out = length positions ∧ zero_outside d out.
Proof.
  intros Hsub Hd Hd0. unfold fill_indexes, indexes. rewrite Hd. cbn.
  apply (for_each_invariant
    (λ o, length o = length positions ∧ zero_outside d o)).
  - intros o i o' Hi [Hlen Hz]. apply elem_of_seqZ in Hi.
    destruct (value i) as [x|]; cbn; [|done].
    unfold len in Hi.
    rewrite setitem_with_ok; [|done|unfold len; lia].
    intros [= <-]. split; [by rewrite length_insert|].
    intros k y Hy Hk. unfold len in Hk. rewrite length_insert in Hk.
    destruct (decide (k = Z.to_nat i)) as [->|Hne]; [lia|].
    rewrite list_lookup_insert_ne in Hy by done. by eapply Hz.
  - split; [by rewrite length_replicate|].
    intros k y Hy _. by apply lookup_replicate in Hy as [-> _].
Qed.

End FillIndexes.

(** * What the filters compute *)

Section FilterValues.
Context {F : Type} `{Num F}.
Context (sub : Z → Z → res Z) (Hsub : sub_exact sub).

Lemma getitem_at (l : list F) (i : Z) :
  0 ≤ i < len l → getitem_with sub l i = Ok (at_ l i).
Proof using Hsub.
  intros Hi. unfold at_.
  destruct (lookup_lt_is_Some_2 l (Z.to_nat i)) as [x Hx]; [unfold len in Hi; lia|].
  rewrite Hx. cbn. apply getitem_with_ok; [done|lia|done].
Qed.

(** A comprehension over consecutive indices that reads [l[j]] at each
    of them is a zip of the window of [l] with the indices. *)
Lemma comprehension_window (t : Z → res F) (g : F → Z → F) (l : list F) a (n : nat) :
  0 ≤ a → a + Z.of_nat n ≤ len l →
  (∀ j, a ≤ j < a + Z.of_nat n → t j = Ok (g (at_ l j) j)) →
  comprehension t (seqZ a (Z.of_nat n))
  = Ok (zip_with g (window l a (Z.of_nat n)) (seqZ a (Z.of_nat n))).
Proof.
  revert a. induction n as [|n IH]; intros a Ha Hn Ht.
  - rewrite seqZ_nil by lia. cbn. unfold window. by rewrite zip_with_nil_r.
  - rewrite seqZ_cons by lia. cbn.
    rewrite Ht by lia. cbn.
    replace (Z.pred (Z.of_nat (S n))) with (Z.of_nat n) by lia.
    replace (Z.succ a) with (a + 1) by lia.
    rewrite IH; [|lia|lia|intros; apply Ht; lia]. cbn. f_equal.
    unfold window, at_.
    destruct (lookup_lt_is_Some_2 l (Z.to_nat a)) as [x Hx]; [unfold len in Hn; lia|].
    rewrite Hx. cbn.
    rewrite !Nat2Z.id. rewrite (drop_S _ _ _ Hx). cbn.
    by replace (Z.to_nat (a + 1)) with (S (Z.to_nat a)) by lia.
Qed.

Lemma pow4_bounds o w :
  0 ≤ w ≤ o → o ≤ o ^ 4 ∧ 0 ≤ w ^ 2 ∧ w ^ 2 ≤ o ^ 4.
Proof.
  intros Hw.
  replace (o ^ 4) with ((o * o) * (o * o)) by ring.
  replace (w ^ 2) with (w * w) by ring.
  assert (w * w ≤ o * o) by nia.
  assert (o = 0 ∨ 1 ≤ o) as [->|Ho] by lia; [lia|].
  assert (o ≤ o * o) by nia.
  assert (o * o ≤ o * o * (o * o)) by nia.
  lia.
Qed.

Section WithMargin.
Context (d : Z) (Hd : time_to_index MARGIN_TIME = Ok d).

Lemma calc_average_ok (positions : list F) (smooth_time : F) offset :
  time_to_index (smooth_time *. lit 1 2) = Ok offset →
  - d ≤ offset ≤ d →
  calc_average_sub sub positions smooth_time
  = Ok (filled d (len positions) (average_value positions offset)).
Proof using Hsub Hd.
  intros Ho Hod. unfold calc_average_sub. rewrite Ho. cbn.
  apply fill_indexes_ok; [done|done|lia|].
  intros i Hi. rewrite !getitem_at by lia. done.
Qed.

Lemma calc_smooth_ok (positions : list F) (smooth_time : F) offset :
  time_to_index (smooth_time *. lit 1 2) = Ok offset →
  0 ≤ d → int_fits offset = true → fis_zero (of_Z offset) = false →
  calc_smooth_sub sub positions smooth_time
  = Ok (filled d (len positions)
          (smooth_value positions offset (lit 1 2 /. of_Z offset))).
Proof using Hsub Hd.
  intros Ho Hd0 Hfit Hnz. unfold calc_smooth_sub, pyfloat, pydiv.
  rewrite Ho. cbn. rewrite Hfit. cbn. rewrite Hnz. cbn.
  by apply fill_indexes_ok.
Qed.

Lemma calc_weighted_ok (positions : list F) (smooth_time : F) offset :
  time_to_index (smooth_time *. lit 1 2) = Ok offset →
  0 ≤ offset ≤ d → fits_upto (offset ^ 2) → fis_zero (of_Z (offset ^ 2)) = false →
  calc_weighted_sub sub positions smooth_time
  = Ok (filled d (len positions)
          (weighted_value positions offset (fone /. of_Z (offset ^ 2)))).
Proof using Hsub Hd.
  intros Ho Hod Hfit Hnz. unfold calc_weighted_sub, pyfloat, pydiv.
  rewrite Ho. cbn. rewrite Hfit by lia. cbn. rewrite Hnz. cbn.
  apply fill_indexes_ok; [done|done|lia|].
  intros i Hi. unfold range.
  replace (i + offset - (i - offset)) with (Z.of_nat (Z.to_nat (2 * offset))) by lia.
  rewrite (comprehension_window _
    (λ pj j, pj *. of_Z (offset - Z.abs (j - i))) positions); [|lia|lia|].
  - cbn. unfold weighted_value, range.
    replace (i + offset - (i - offset)) with (Z.of_nat (Z.to_nat (2 * offset))) by lia.
    by rewrite Z2Nat.id by lia.
  - intros j Hj. unfold weighted_term, pyfloat.
    rewrite getitem_at by lia. cbn. rewrite Hfit by nia. done.
Qed.

Lemma calc_weighted2_ok (positions : list F) (smooth_time : F) offset :
  time_to_index (smooth_time *. lit 1 2) = Ok offset →
  0 ≤ offset ≤ d → fits_upto (offset ^ 4) → fis_zero (of_Z (offset ^ 4)) = false →
  calc_weighted2_sub sub positions smooth_time
  = Ok (filled d (len positions)
          (weighted2_value positions offset (fone /. of_Z (offset ^ 4)))).
Proof using Hsub Hd.
  intros Ho Hod Hfit Hnz. unfold calc_weighted2_sub, pyfloat, pydiv.
  rewrite Ho. cbn. rewrite Hfit by lia. cbn. rewrite Hnz. cbn.
  apply fill_indexes_ok; [done|done|lia|].
  intros i Hi. unfold range.
  replace (i + offset - (i - offset)) with (Z.of_nat (Z.to_nat (2 * offset))) by lia.
  rewrite (comprehension_window _
    (λ pj j, pj *. of_Z ((offset - Z.abs (j - i)) ^ 2)
             *. (of_Z 2 *. of_Z (Z.abs (j - i)) +. of_Z offset)) positions); [|lia|lia|].
  - cbn. unfold weighted2_value, range.
    replace (i + offset - (i - offset)) with (Z.of_nat (Z.to_nat (2 * offset))) by lia.
    by rewrite Z2Nat.id by lia.
  - intros j Hj. unfold weighted2_term, pyfloat.
    rewrite getitem_at by lia. cbn.
    assert (0 ≤ offset - Z.abs (j - i) ≤ offset) as Hw by lia.
    destruct (pow4_bounds offset (offset - Z.abs (j - i)) Hw) as (Ho4 & Hw2 & Hw2').
    rewrite !Hfit by lia. done.
Qed.

(** With a negative offset the ranges of [calc_weighted] and
    [calc_weighted2] are empty: nothing is read. *)
Lemma calc_weighted_neg (positions : list F) (smooth_time : F) offset :
  time_to_index (smooth_time *. lit 1 2) = Ok offset →
  offset < 0 → 0 ≤ d →
  int_fits (offset ^ 2) = true → fis_zero (of_Z (offset ^ 2)) = false →
  calc_weighted_sub sub positions smooth_time
  = Ok (filled d (len positions) (λ _, pysum [] *. (fone /. of_Z (offset ^ 2)))).
Proof using Hsub Hd.
  intros Ho Hneg Hd0 Hfit Hnz. unfold calc_weighted_sub, pyfloat, pydiv.
  rewrite Ho. cbn. rewrite Hfit. cbn. rewrite Hnz. cbn.
  apply fill_indexes_ok; [done..|].
  intros i Hi. unfold range. by rewrite seqZ_nil by lia.
Qed.

Lemma calc_weighted2_neg (positions : list F) (smooth_time : F) offset :
  time_to_index (smooth_time *. lit 1 2) = Ok offset →
  offset < 0 → 0 ≤ d →
  int_fits (offset ^ 4) = true → fis_zero (of_Z (offset ^ 4)) = false →
  calc_weighted2_sub sub positions smooth_time
  = Ok (filled d (len positions) (λ _, pysum [] *. (fone /. of_Z (offset ^ 4)))).
Proof using Hsub Hd.
  intros Ho Hneg Hd0 Hfit Hnz. unfold calc_weighted2_sub, pyfloat, pydiv.
  rewrite Ho. cbn. rewrite Hfit. cbn. rewrite Hnz. cbn.
  apply fill_indexes_ok; [done..|].
  intros i Hi. unfold range. by rewrite seqZ_nil by lia.
Qed.

Lemma calc_spring_raw_ok (g : spring_globals) (positions : list F) :
  1 ≤ d →
  calc_spring_raw_sub sub g positions
  = Ok (filled d (len positions) (spring_raw_value g positions)).
Proof using Hsub Hd.
  intros Hd1. unfold calc_spring_raw_sub.
  apply fill_indexes_ok; [done|done|lia|].
  intros i Hi. rewrite !getitem_at by lia. done.
Qed.

End WithMargin.
End FilterValues.

(** * The script on Python floats *)

Section FloatFacts.
Import Float.

Lemma float_margin : time_to_index (MARGIN_TIME : float) = Ok 500.
Proof. vm_compute. reflexivity. Qed.

Lemma float_cut : time_to_index (of_Z 2 *. MARGIN_TIME : float) = Ok 1000.
Proof. vm_compute. reflexivity. Qed.

Lemma float_fits_upto b : b < 2 ^ 1024 - 2 ^ 970 → fits_upto (F:=float) b.
Proof.
  intros Hb z Hz. cbn. unfold float_fits.
  apply Z.ltb_lt. rewrite Z.abs_eq by lia. lia.
Qed.

Lemma forallb_seqZ (f : Z → bool) (m n : Z) :
  forallb f (seqZ m n) = true → ∀ o, m ≤ o < m + n → f o = true.
Proof.
  intros Hall o Ho. rewrite forallb_forall in Hall.
  apply Hall. apply list_elem_of_In, elem_of_seqZ. lia.
Qed.

Lemma float_nonzero_powers o :
  1 ≤ o ≤ 500 → nonzero_powers o = true.
Proof.
  intros Ho. apply (forallb_seqZ nonzero_powers 1 500); [|lia].
  vm_compute. reflexivity.
Qed.

End FloatFacts.

(** * Zeros and finite numbers among the floats

    What the statements on floats need of IEEE arithmetic: a product
    with a zero is a zero when the other factor is finite, a sum with
    a zero is the other term (up to the sign of a zero), and the
    comparisons do not see the sign of a zero. *)

Section FloatZero.
Import Float.

Lemma is_zero_spec (z : float) :
  fis_zero z = true ↔ ∃ s, Prim2SF z = S754_zero s.
Proof.
  cbn. rewrite FloatAxioms.eqb_spec.
  change (Prim2SF 0%float) with (S754_zero false).
  destruct (Prim2SF z) as [s|s| |s m e]; cbn.
  - split; [by exists s|done].
  - split; [by destruct s|by intros [? ?]].
  - split; [done|by intros [? ?]].
  - split; [by destruct s|by intros [? ?]].
Qed.

Lemma finite_zero (z : float) : fis_zero z = true → finite z = true.
Proof. intros [s Hs]%is_zero_spec. unfold finite. by rewrite Hs. Qed.

Lemma same_refl (x : float) : same x x.
Proof. by left. Qed.

Lemma same_finite (x y : float) : same x y → finite y = true → finite x = true.
Proof. intros [->|[Hx _]] Hy; [done|by apply finite_zero]. Qed.

(** A finite number times a zero is a zero. *)
Lemma mul_zero_r (x z : float) :
  finite x = true → fis_zero z = true → fis_zero (x *. z) = true.
Proof.
  unfold finite. intros Hx [s Hs]%is_zero_spec. apply is_zero_spec.
  cbn. rewrite FloatAxioms.mul_spec, Hs.
  destruct (Prim2SF x) as [sx|sx| |sx mx ex]; try done; cbn; eauto.
Qed.

(** Adding a zero changes nothing but, possibly, the sign of a zero. *)
Lemma add_zero_r (x z : float) : fis_zero z = true → same (x +. z) x.
Proof.
  intros [s Hs]%is_zero_spec.
  destruct (Prim2SF x) as [sx|sx| |sx mx ex] eqn:Hx.
  - right. split; apply is_zero_spec; [|by eauto].
    cbn. rewrite FloatAxioms.add_spec, Hx, Hs. destruct sx, s; cbn; eauto.
  - left. apply Prim2SF_inj. cbn. rewrite FloatAxioms.add_spec, Hx, Hs. done.
  - left. apply Prim2SF_inj. cbn. rewrite FloatAxioms.add_spec, Hx, Hs. done.
  - left. apply Prim2SF_inj. cbn. rewrite FloatAxioms.add_spec, Hx, Hs. done.
Qed.

Lemma add_zero_l (z y : float) : fis_zero z = true → same (z +. y) y.
Proof.
  intros [s Hs]%is_zero_spec.
  destruct (Prim2SF y) as [sy|sy| |sy my ey] eqn:Hy.
  - right. split; apply is_zero_spec; [|by eauto].
    cbn. rewrite FloatAxioms.add_spec, Hy, Hs. destruct sy, s; cbn; eauto.
  - left. apply Prim2SF_inj. cbn. rewrite FloatAxioms.add_spec, Hy, Hs. done.
  - left. apply Prim2SF_inj. cbn. rewrite FloatAxioms.add_spec, Hy, Hs. done.
  - left. apply Prim2SF_inj. cbn. rewrite FloatAxioms.add_spec, Hy, Hs. done.
Qed.

(** [t <= y] does not tell the two zeros apart. *)
Lemma fle_same (t y y' : float) : same y y' → fle t y = fle t y'.
Proof.
  intros [->|[[s Hs]%is_zero_spec [s' Hs']%is_zero_spec]]; [done|].
  cbn. rewrite !FloatAxioms.leb_spec, Hs, Hs'.
  by destruct (Prim2SF t) as [st|st| |st mt et].
Qed.

End FloatZero.

(** * A window of zero samples *)

Section Degenerate.
Import Float.

(** C9, as the code has it: when the window offset derived from
    [smooth_time] is 0, [calc_smooth], [calc_weighted] and
    [calc_weighted2] raise [ZeroDivisionError] while computing their
    weight, before the output list exists; [calc_average] computes no
    weight, makes no check, and returns the filled list (each stored
    value is [.5 * (positions[i] + positions[i])]). *)
Theorem zero_offset_filters (positions : list float) (smooth_time : float) :
  time_to_index (smooth_time *. lit 1 2) = Ok 0 →
  calc_smooth positions smooth_time = Raise ZeroDivisionError
  ∧ calc_weighted positions smooth_time = Raise ZeroDivisionError
  ∧ calc_weighted2 positions smooth_time = Raise ZeroDivisionError
  ∧ calc_average positions smooth_time
    = Ok (filled 500 (len positions) (average_value positions 0)).
Proof.
  intros Ho. repeat split.
  - unfold calc_smooth, calc_smooth_sub. rewrite Ho. reflexivity.
  - unfold calc_weighted, calc_weighted_sub. rewrite Ho. reflexivity.
  - unfold calc_weighted2, calc_weighted2_sub. rewrite Ho. reflexivity.
  - apply calc_average_ok; [apply resolve_index_exact|apply float_margin|done|lia].
Qed.

Lemma zero_offset_filters_witness :
  time_to_index (0%float *. lit 1 2) = Ok 0
  ∧ calc_smooth [1; 2; 3]%float 0%float = Raise ZeroDivisionError.
Proof.
  split; [reflexivity|].
  apply (zero_offset_filters [1; 2; 3]%float 0%float). reflexivity.
Defined.

(** C9 fails for [calc_average]: with [smooth_time = 0] the offset is 0
    and the filter returns a list, the two samples inside the margins
    copied through. *)
Lemma average_accepts_zero_offset :
  time_to_index (0%float *. lit 1 2) = Ok 0
  ∧ calc_average (replicate 1002 1%float) 0%float
    = Ok (replicate 500 0%float ++ [1%float; 1%float] ++ replicate 500 0%float).
Proof. split; vm_compute; reflexivity. Qed.

End Degenerate.

(** * Subscripts stay inside the list *)

Section Bounds.
Import Float.

Lemma float_nonzero_pow o k :
  1 ≤ Z.abs o ≤ 500 → (k = 2 ∨ k = 4) →
  int_fits (Num:=float_num) (o ^ k) = true
  ∧ fis_zero (of_Z (o ^ k) : float) = false.
Proof.
  intros Ho Hk.
  assert (o ^ k = Z.abs o ^ k) as ->.
  { destruct Hk as [-> | ->]; destruct (Z.abs_spec o) as [[_ ->]|[_ ->]]; ring. }
  pose proof (float_nonzero_powers (Z.abs o) Ho) as Hnz.
  unfold nonzero_powers in Hnz.
  apply andb_prop in Hnz as [Hnz H4]. apply andb_prop in Hnz as [_ H2].
  apply negb_true_iff in H2, H4.
  split.
  - apply (float_fits_upto (500 ^ 4)); [done|].
    destruct (pow4_bounds 500 (Z.abs o) ltac:(lia)) as (_ & ? & ?).
    destruct (pow4_bounds (Z.abs o) (Z.abs o) ltac:(lia)) as (? & ? & ?).
    assert (Z.abs o ^ 4 ≤ 500 ^ 4) by (apply Z.pow_le_mono_l; lia).
    destruct Hk as [-> | ->]; lia.
  - by destruct Hk as [-> | ->].
Qed.

(** C10: when the offset derived from [smooth_time] is at most
    [drop = time_to_index(MARGIN_TIME)] (a half-width,
    [0 <= offset <= drop]; the proof also covers the offsets down to
    [-drop]), the runs of [calc_average], [calc_weighted],
    [calc_weighted2] and [calc_spring_raw] with subscripts that refuse
    every index outside [0, N) are the runs Python makes, and none
    ends in [IndexError]: no subscript is negative and none reaches
    N. *)
Theorem reads_within_margin (positions : list float) (smooth_time : float) (drop offset : Z) (g : spring_globals) :
  time_to_index (MARGIN_TIME : float) = Ok drop →
  time_to_index (smooth_time *. lit 1 2) = Ok offset →
  - drop ≤ offset ≤ drop →
  reads_in_bounds (calc_average_sub resolve_index_strict positions smooth_time)
                  (calc_average positions smooth_time)
  ∧ reads_in_bounds (calc_weighted_sub resolve_index_strict positions smooth_time)
                    (calc_weighted positions smooth_time)
  ∧ reads_in_bounds (calc_weighted2_sub resolve_index_strict positions smooth_time)
                    (calc_weighted2 positions smooth_time)
  ∧ reads_in_bounds (calc_spring_raw_sub resolve_index_strict g positions)
                    (calc_spring_raw g positions).
Proof.
  intros Hd Ho Hod.
  assert (drop = 500) as -> by (rewrite float_margin in Hd; congruence).
  pose proof resolve_index_exact as Hpy.
  pose proof resolve_index_strict_exact as Hst.
  assert (offset ^ 2 ≤ 500 ^ 2 ∧ offset ^ 4 ≤ 500 ^ 4) as [Hp2 Hp4].
  { assert (offset ^ 2 = Z.abs offset ^ 2 ∧ offset ^ 4 = Z.abs offset ^ 4) as [-> ->]
      by (destruct (Z.abs_spec offset) as [[_ ->]|[_ ->]]; split; ring).
    split; apply Z.pow_le_mono_l; lia. }
  unfold reads_in_bounds, calc_average, calc_weighted, calc_weighted2, calc_spring_raw.
  split; [|split; [|split]].
  - rewrite (calc_average_ok _ Hst 500 Hd _ _ offset Ho Hod).
    rewrite (calc_average_ok _ Hpy 500 Hd _ _ offset Ho Hod). done.
  - destruct (Z.lt_trichotomy offset 0) as [Hneg|[->|Hpos]].
    + destruct (float_nonzero_pow offset 2) as [Hf Hz]; [lia|by left|].
      rewrite (calc_weighted_neg _ Hst 500 Hd _ _ offset Ho Hneg ltac:(lia) Hf Hz).
      rewrite (calc_weighted_neg _ Hpy 500 Hd _ _ offset Ho Hneg ltac:(lia) Hf Hz).
      done.
    + unfold calc_weighted_sub. rewrite Ho. done.
    + destruct (float_nonzero_pow offset 2) as [Hf Hz]; [lia|by left|].
      assert (fits_upto (F:=float) (offset ^ 2)) as Hfits
        by (apply float_fits_upto; lia).
      rewrite (calc_weighted_ok _ Hst 500 Hd _ _ offset Ho ltac:(lia) Hfits Hz).
      rewrite (calc_weighted_ok _ Hpy 500 Hd _ _ offset Ho ltac:(lia) Hfits Hz).
      done.
  - destruct (Z.lt_trichotomy offset 0) as [Hneg|[->|Hpos]].
    + destruct (float_nonzero_pow offset 4) as [Hf Hz]; [lia|by right|].
      rewrite (calc_weighted2_neg _ Hst 500 Hd _ _ offset Ho Hneg ltac:(lia) Hf Hz).
      rewrite (calc_weighted2_neg _ Hpy 500 Hd _ _ offset Ho Hneg ltac:(lia) Hf Hz).
      done.
    + unfold calc_weighted2_sub. rewrite Ho. done.
    + destruct (float_nonzero_pow offset 4) as [Hf Hz]; [lia|by right|].
      assert (fits_upto (F:=float) (offset ^ 4)) as Hfits
        by (apply float_fits_upto; lia).
      rewrite (calc_weighted2_ok _ Hst 500 Hd _ _ offset Ho ltac:(lia) Hfits Hz).
      rewrite (calc_weighted2_ok _ Hpy 500 Hd _ _ offset Ho ltac:(lia) Hfits Hz).
      done.
  - rewrite (calc_spring_raw_ok _ Hst 500 Hd g positions ltac:(lia)).
    rewrite (calc_spring_raw_ok _ Hpy 500 Hd g positions ltac:(lia)). done.
Qed.

(** The theorem on 1002 samples with offset 50: the loops run over
    the indices 500 and 501 and read the samples 450 to 551. *)
Lemma reads_within_margin_witness :
  reads_in_bounds
    (calc_weighted2_sub resolve_index_strict
       (float_of_Z <$> seqZ 0 1002) (lit 1 100))
    (calc_weighted2 (float_of_Z <$> seqZ 0 1002) (lit 1 100))
  ∧ is_ok (calc_weighted2 (float_of_Z <$> seqZ 0 1002) (lit 1 100)) = true.
Proof.
  split.
  - destruct (reads_within_margin (float_of_Z <$> seqZ 0 1002) (lit 1 100)
                500 50 globals_first) as (_ & _ & Hw2 & _);
      [reflexivity|reflexivity|lia|exact Hw2].
  - vm_compute. reflexivity.
Defined.

End Bounds.

(** * The shape of a filter's output *)

Section Shape.
Context {F : Type} `{Num F}.
Context (sub : Z → Z → res Z) (Hsub : sub_exact sub).
Context (d : Z) (Hd : time_to_index MARGIN_TIME = Ok d) (Hd0 : 0 ≤ d).

Local Ltac through_fill :=
  repeat match goal with
  | |- context [time_to_index ?t] => destruct (time_to_index t); cbn; [|done]
  | |- context [pyfloat ?z] => destruct (pyfloat z); cbn; [|done]
  | |- context [pydiv ?x ?y] => destruct (pydiv x y); cbn; [|done]
  end;
  by apply fill_indexes_shape.

Lemma calc_average_shape positions smooth_time out :
  calc_average_sub sub positions smooth_time = Ok out →
  length out = length positions ∧ zero_outside d out.
Proof using Hsub Hd Hd0. unfold calc_average_sub. through_fill. Qed.

Lemma calc_smooth_shape positions smooth_time out :
  calc_smooth_sub sub positions smooth_time = Ok out →
  length out = length positions ∧ zero_outside d out.
Proof using Hsub Hd Hd0. unfold calc_smooth_sub. through_fill. Qed.

Lemma calc_weighted_shape positions smooth_time out :
  calc_weighted_sub sub positions smooth_time = Ok out →
  length out = length positions ∧ zero_outside d out.
Proof using Hsub Hd Hd0. unfold calc_weighted_sub. through_fill. Qed.

Lemma calc_weighted2_shape positions smooth_time out :
  calc_weighted2_sub sub positions smooth_time = Ok out →
  length out = length positions ∧ zero_outside d out.
Proof using Hsub Hd Hd0. unfold calc_weighted2_sub. through_fill. Qed.

End Shape.

Section FloatShape.
Import Float.

(** C5, as the code has it: an output of [calc_average],
    [calc_smooth], [calc_weighted] or [calc_weighted2] has the length
    of the input and is zero at every index outside
    [drop, N - drop), where [drop = time_to_index(MARGIN_TIME) = 500]
    whatever the window offset is; and each filter does return an
    output when its offset lies in [1, drop]. *)
Theorem filter_output_shape (positions : list float) (smooth_time : float) :
  time_to_index (MARGIN_TIME : float) = Ok 500
  ∧ (∀ out,
       calc_average positions smooth_time = Ok out
       ∨ calc_smooth positions smooth_time = Ok out
       ∨ calc_weighted positions smooth_time = Ok out
       ∨ calc_weighted2 positions smooth_time = Ok out →
       length out = length positions ∧ zero_outside 500 out)
  ∧ (∀ offset,
       time_to_index (smooth_time *. lit 1 2) = Ok offset →
       1 ≤ offset ≤ 500 →
       is_ok (calc_average positions smooth_time) = true
       ∧ is_ok (calc_smooth positions smooth_time) = true
       ∧ is_ok (calc_weighted positions smooth_time) = true
       ∧ is_ok (calc_weighted2 positions smooth_time) = true).
Proof.
  pose proof resolve_index_exact as Hpy.
  pose proof float_margin as Hd.
  split; [done|]. split.
  - intros out [Ho|[Ho|[Ho|Ho]]].
    + by eapply calc_average_shape.
    + by eapply calc_smooth_shape.
    + by eapply calc_weighted_shape.
    + by eapply calc_weighted2_shape.
  - intros offset Ho Hod.
    pose proof (float_nonzero_powers offset Hod) as Hnz.
    unfold nonzero_powers in Hnz.
    apply andb_prop in Hnz as [Hnz H4]. apply andb_prop in Hnz as [H1 H2].
    apply negb_true_iff in H1, H2, H4.
    assert (offset ^ 2 ≤ 500 ^ 2) by (apply Z.pow_le_mono_l; lia).
    assert (offset ^ 4 ≤ 500 ^ 4) by (apply Z.pow_le_mono_l; lia).
    unfold calc_average, calc_smooth, calc_weighted, calc_weighted2.
    rewrite (calc_average_ok _ Hpy 500 Hd _ _ offset) by (done || lia).
    rewrite (calc_smooth_ok _ Hpy 500 Hd _ _ offset);
      [|done|lia|apply (float_fits_upto 500); [done|lia]|done].
    rewrite (calc_weighted_ok _ Hpy 500 Hd _ _ offset);
      [|done|lia|apply float_fits_upto; lia|done].
    rewrite (calc_weighted2_ok _ Hpy 500 Hd _ _ offset);
      [|done|lia|apply float_fits_upto; lia|done].
    done.
Qed.

(** C5 fails where the offset exceeds the margin: [calc_smooth] with
    [smooth_time = 0.14] has offset 700, its window range
    [700, 1200 - 700) is empty for 1200 samples, and still the output
    is not zero at index 500: the slice [positions[-200:1200]] wraps
    round to the last 200 samples. *)
Lemma smooth_nonzero_outside_window :
  time_to_index (lit 14 100 *. lit 1 2 : float) = Ok 700
  ∧ ¬ (700 ≤ 500 < 1200 - 700)
  ∧ ∃ out x,
      calc_smooth (replicate 1200 1%float) (lit 14 100) = Ok out
      ∧ out !! 500%nat = Some x
      ∧ fis_zero x = false.
Proof.
  split; [vm_compute; reflexivity|]. split; [lia|].
  eexists _, _. split; [vm_compute; reflexivity|].
  split; vm_compute; reflexivity.
Qed.

End FloatShape.

(** * The spring filter *)

Section SpringRaw.
Import Float.

(** C3, as the code has it: the call of [calc_spring_raw] that
    [gen_updated_position] makes reads the globals as the module left
    them, [SPRING_ADVANCE = 1/(SPRING_FREQ*2*pi)**2] and
    [RESISTANCE_ADVANCE = DAMPING * SPRING_ADVANCE] (not zero); it
    returns a list of the length of its input that holds
    [pos[i] + sa*(pos[i-1] - 2*pos[i] + pos[i+1]) + ra*(pos[i+1] - pos[i])]
    at the indices [500 <= i < N - 500] and zero at the others, where
    [sa = SPRING_ADVANCE * INV_SEG_TIME * INV_SEG_TIME],
    [ra = RESISTANCE_ADVANCE * INV_SEG_TIME] and
    [500 = time_to_index(MARGIN_TIME)]. *)
Theorem spring_raw_values (positions : list float) :
  let g := globals_loaded in
  let sa := SPRING_ADVANCE g *. INV_SEG_TIME *. INV_SEG_TIME in
  let ra := RESISTANCE_ADVANCE g *. INV_SEG_TIME in
  let pos := at_ positions in
  SPRING_ADVANCE g = fone /. fsquare (SPRING_FREQ *. of_Z 2 *. fpi)
  ∧ RESISTANCE_ADVANCE g = DAMPING *. SPRING_ADVANCE g
  ∧ fis_zero (RESISTANCE_ADVANCE g) = false
  ∧ gen_updated_position positions
    = (raw ← calc_spring_raw g positions; calc_weighted2 raw SMOOTH_TIME)
  ∧ time_to_index (MARGIN_TIME : float) = Ok 500
  ∧ ∃ out,
      calc_spring_raw g positions = Ok out
      ∧ length out = length positions
      ∧ ∀ i, 0 ≤ i < len positions →
          at_ out i
          = if (500 <=? i) && (i <? len positions - 500)
            then pos i +. sa *. (pos (i - 1) -. of_Z 2 *. pos i +. pos (i + 1))
                 +. ra *. (pos (i + 1) -. pos i)
            else fzero.
Proof.
  intros g sa ra pos.
  split; [reflexivity|]. split; [reflexivity|].
  split; [vm_compute; reflexivity|]. split; [reflexivity|].
  split; [exact float_margin|].
  eexists. split.
  - apply (calc_spring_raw_ok _ resolve_index_exact 500 float_margin); lia.
  - split.
    + unfold filled. rewrite length_partial. unfold len. lia.
    + intros i Hi. unfold at_ at 1, filled.
      rewrite lookup_partial by lia. cbn.
      by rewrite Z2Nat.id by lia.
Qed.

(** C3 fails on the range: the filter leaves index 1 of a constant
    list of 1002 ones at zero, where the formula gives one; its loop
    starts at index 500. *)
Lemma spring_raw_zero_at_index_1 :
  1 ≤ 1 < 1002 - 1
  ∧ spring_raw_value globals_loaded (replicate 1002 1%float) 1 = 1%float
  ∧ ∃ out,
      calc_spring_raw globals_loaded (replicate 1002 1%float) = Ok out
      ∧ out !! 1%nat = Some 0%float.
Proof.
  split; [lia|]. split; [vm_compute; reflexivity|].
  eexists. split; vm_compute; reflexivity.
Qed.

End SpringRaw.

(** * The spring estimator *)

Section Estimator.
Context {F : Type} `{Num F} `{Trans F}.
Variables natural_frequency : F.
Hypothesis Hfreq :
  fsquare (of_Z 2 *. fpi *. natural_frequency) = ang_freq2.

Let before := estimator_before natural_frequency DAMPING SEG_TIME.
Let output := estimator_output natural_frequency DAMPING SEG_TIME.

(** The state of the specification does not look past the samples
    already processed. *)
Lemma estimator_before_app (l l' : list F) (i : nat) :
  (i ≤ length l)%nat → before (l ++ l') i = before l i.
Proof.
  induction i as [|i IH]; intros Hi; [done|]. cbn.
  rewrite lookup_app_l by lia. rewrite IH by lia. done.
Qed.

(** One pass of the source loop is the four updates of the
    specification, and appends the [head_position] of update (1). *)
Lemma spring_step_updates (st : spring_state) (e : estimator) (c : F) :
  sp_head_pos st = head_position e → sp_head_v st = head_velocity e →
  let st' := spring_step st c in
  let e' := sample_updates natural_frequency DAMPING SEG_TIME e c in
  sp_head_pos st' = head_position e'
  ∧ sp_head_v st' = head_velocity e'
  ∧ sp_out st' = sp_out st ++ [head_position (update_1 SEG_TIME e)].
Proof using Hfreq.
  intros Hp Hv. unfold spring_step, sample_updates, update_4, update_3, update_2, update_1.
  cbn. rewrite Hfreq, Hp, Hv. done.
Qed.

Lemma estimate_spring_states (positions : list F) :
  let st := foldl spring_step (SpringState fzero fzero []) positions in
  sp_head_pos st = head_position (before positions (length positions))
  ∧ sp_head_v st = head_velocity (before positions (length positions))
  ∧ length (sp_out st) = length positions
  ∧ ∀ i, (i < length positions)%nat → sp_out st !! i = Some (output positions i).
Proof using Hfreq.
  induction positions as [|c l IH] using rev_ind.
  - cbn. repeat split. intros i Hi. lia.
  - cbn zeta in IH |- * . rewrite foldl_app. cbn [foldl].
    set (st := foldl spring_step (SpringState fzero fzero []) l) in IH |- * .
    destruct IH as (Hp & Hv & Hlen & Hout).
    destruct (spring_step_updates st _ c Hp Hv) as (Hp' & Hv' & Ho').
    assert (before (l ++ [c]) (length (l ++ [c]))
            = sample_updates natural_frequency DAMPING SEG_TIME
                (before l (length l)) c) as Hlast.
    { rewrite length_app, Nat.add_1_r. unfold before. cbn.
      rewrite lookup_app_r, Nat.sub_diag by done. cbn.
      by rewrite estimator_before_app. }
    rewrite Hlast, Hp', Hv', Ho'.
    split; [done|]. split; [done|]. split.
    + rewrite !length_app, Hlen. done.
    + intros i Hi. rewrite length_app in Hi. cbn in Hi.
      unfold output, estimator_output.
      destruct (decide (i = length l)) as [->|Hne].
      * rewrite lookup_app_r by lia. rewrite Hlen, Nat.sub_diag. cbn.
        by rewrite estimator_before_app.
      * rewrite lookup_app_l by lia. rewrite Hout by lia.
        unfold output, estimator_output. by rewrite estimator_before_app by lia.
Qed.

End Estimator.

Section FloatEstimator.
Import Float.

(** C2: [estimate_spring] returns one sample per input sample; the
    state starts at [head_position = 0], [head_velocity = 0], each
    sample applies the four updates of the specification in their
    order, with [natural_frequency = 35], [damping_coefficient = 30]
    and [SAMPLE_PERIOD = 0.0001], and output [i] is the
    [head_position] that update (1) produces for index [i]. *)
Theorem estimate_spring_updates (commanded : list float) :
  estimator_before 35%float 30%float 0.0001%float commanded 0
  = Estimator 0%float 0%float
  ∧ length (estimate_spring commanded) = length commanded
  ∧ ∀ i, (i < length commanded)%nat →
      estimate_spring commanded !! i
      = Some (estimator_output 35%float 30%float 0.0001%float commanded i).
Proof.
  split; [reflexivity|].
  assert (fsquare (of_Z 2 *. fpi *. 35%float) = ang_freq2) as Hfreq
    by (vm_compute; reflexivity).
  destruct (estimate_spring_states 35%float Hfreq commanded) as (_ & _ & Hlen & Hout).
  split; [exact Hlen|].
  intros i Hi. unfold estimate_spring. rewrite (Hout i Hi).
  reflexivity.
Qed.

End FloatEstimator.

(** * Trimming *)

Section Trim.
Context {F : Type} `{Num F}.

Lemma py_del_from_nonneg (l : list F) (k : Z) :
  0 ≤ k → py_del_from l k = take (Z.to_nat k) l.
Proof.
  intros Hk. unfold py_del_from, clamp_bound.
  destruct (Z.ltb_spec k 0); [lia|].
  destruct (Z.min_spec k (len l)) as [[_ ->]|[Hle ->]]; [done|].
  unfold len in Hle |- * .
  rewrite !take_ge; [done|lia|lia].
Qed.

(** The loop [for l in lists: del l[keep:]] over a store, for a cut
    [f] that changes nothing when applied twice. *)
Lemma for_each_alter (f : list F → list F) (lists : list nat) (h : list (list F)) :
  (∀ l, f (f l) = f l) →
  ∃ h', for_each lists h (λ h r, Ok (alter f r h)) = Ok h'
        ∧ length h' = length h
        ∧ ∀ r, h' !! r = if decide (r ∈ lists) then f <$> h !! r else h !! r.
Proof.
  intros Hf. revert h. induction lists as [|x rs IH]; intros h.
  - exists h. split; [done|]. split; [done|]. intros r.
    destruct (decide (r ∈ [])) as [Hr|_]; [by apply elem_of_nil in Hr|done].
  - destruct (IH (alter f x h)) as (h' & Hrun & Hlen & Hlook).
    exists h'. split; [done|]. split; [by rewrite Hlen, length_alter|].
    intros r. rewrite Hlook.
    destruct (decide (r = x)) as [->|Hne].
    + rewrite list_lookup_alter_eq.
      rewrite (decide_True (P := x ∈ x :: rs)) by left.
      destruct (decide (x ∈ rs)); [|done].
      destruct (h !! x); cbn; [by rewrite Hf|done].
    + rewrite list_lookup_alter_ne by done.
      destruct (decide (r ∈ rs)) as [Hr|Hr].
      * by rewrite (decide_True (P := r ∈ x :: rs)) by (by right).
      * rewrite (decide_False (P := r ∈ x :: rs)); [done|].
        intros [?|?]%elem_of_cons; done.
Qed.

(** [trim_lists] on lists of one length [L] that is at least the cut:
    every list passed is left with its first [L - cut] samples. *)
Lemma trim_lists_ok (lists : list nat) (h : list (list F)) (cut L : Z) :
  time_to_index (of_Z 2 *. MARGIN_TIME) = Ok cut →
  lists ≠ [] →
  (∀ r, r ∈ lists → len (deref h r) = L) →
  0 ≤ cut ≤ L →
  ∃ h', trim_lists lists h = Ok h'
        ∧ length h' = length h
        ∧ (∀ r, r ∈ lists → deref h' r = take (Z.to_nat (L - cut)) (deref h r))
        ∧ (∀ r, r ∉ lists → deref h' r = deref h r).
Proof.
  intros Hcut Hne Hlen HL. unfold trim_lists.
  destruct lists as [|first rest]; [done|]. rewrite Hcut. cbn.
  rewrite (Hlen first) by left.
  destruct (for_each_alter (λ l, py_del_from l (L - cut)) (first :: rest) h)
    as (h' & Hrun & Hlenh & Hlook).
  { intros l. rewrite !py_del_from_nonneg by lia. rewrite take_take. f_equal. lia. }
  exists h'. split; [exact Hrun|]. split; [done|]. split.
  - intros r Hr. unfold deref. rewrite Hlook, decide_True by done.
    destruct (h !! r); cbn.
    + apply py_del_from_nonneg. lia.
    + by rewrite take_nil.
  - intros r Hr. unfold deref. by rewrite Hlook, decide_False by done.
Qed.

End Trim.

Section FloatTrim.
Import Float.

(** C6, as the code has it: for lists that all have one length [L]
    of at least [2*drop] samples, [drop = time_to_index(MARGIN_TIME)],
    [trim_lists] cuts each list passed down to its first [L - 2*drop]
    samples; the cut [time_to_index(2*MARGIN_TIME)] is [2*drop].
    Every output has length [L - 2*drop], sample [k] of an output is
    sample [k] of the original for every [k < L - 2*drop], and the
    samples from index [L - 2*drop] on, the last [2*drop], are gone.
    No leading sample is removed. *)
Theorem trim_lists_keeps_prefix (lists : list nat) (h : list (list float)) (L : Z) :
  lists ≠ [] →
  (∀ r, r ∈ lists → len (deref h r) = L) →
  2 * 500 ≤ L →
  time_to_index (MARGIN_TIME : float) = Ok 500
  ∧ time_to_index (of_Z 2 *. MARGIN_TIME : float) = Ok (2 * 500)
  ∧ ∃ h', trim_lists lists h = Ok h'
          ∧ ∀ r, r ∈ lists →
              deref h' r = take (Z.to_nat (L - 2 * 500)) (deref h r)
              ∧ len (deref h' r) = L - 2 * 500
              ∧ (∀ k : nat, Z.of_nat k < L - 2 * 500 →
                   deref h' r !! k = deref h r !! k)
              ∧ (∀ k : nat, L - 2 * 500 ≤ Z.of_nat k →
                   deref h' r !! k = None).
Proof.
  intros Hne Hlen HL.
  split; [exact float_margin|]. split; [exact float_cut|].
  destruct (trim_lists_ok lists h 1000 L float_cut Hne Hlen ltac:(lia))
    as (h' & Hrun & _ & Hin & _).
  exists h'. split; [done|]. intros r Hr.
  rewrite (Hin r Hr).
  specialize (Hlen r Hr). unfold len in Hlen.
  split; [done|]. split; [|split].
  - unfold len. rewrite length_take. lia.
  - intros k Hk. apply lookup_take_lt. lia.
  - intros k Hk. apply lookup_ge_None_2. rewrite length_take. lia.
Qed.

Lemma trim_lists_keeps_prefix_witness :
  ∃ h', trim_lists [0%nat; 0%nat] [float_of_Z <$> seqZ 0 1003] = Ok h'
        ∧ deref h' 0 = [0%float; 1%float; 2%float].
Proof.
  destruct (trim_lists_keeps_prefix [0%nat; 0%nat] [float_of_Z <$> seqZ 0 1003] 1003)
    as (_ & _ & h' & Hrun & Hr); [done| |lia|].
  - intros r Hr. assert (r = 0%nat) as ->; [|reflexivity].
    repeat (apply elem_of_cons in Hr as [->|Hr]; [done|]). by apply elem_of_nil in Hr.
  - exists h'. split; [done|].
    destruct (Hr 0%nat) as [-> _]; [left|]. reflexivity.
Defined.

(** C6 fails on the leading samples: of 1100 samples 0, 1, 2, ... the
    100 samples that [trim_lists] leaves are the samples 0 to 99,
    sample 0, the first of the sequence, among them; only the end is
    cut. *)
Lemma trim_lists_keeps_first_sample :
  ∃ out,
    trim_lists [0%nat] [float_of_Z <$> seqZ 0 1100] = Ok [out]
    ∧ out = take 100 (float_of_Z <$> seqZ 0 1100)
    ∧ out !! 0%nat = (float_of_Z <$> seqZ 0 1100) !! 0%nat
    ∧ out !! 0%nat = Some 0%float.
Proof. eexists. repeat split; vm_compute; reflexivity. Qed.

End FloatTrim.

(** * The position kernels in exact arithmetic *)

Section Kernels.
Import Exact.
Local Open Scope Qc_scope.

Lemma Qc_lit (n d : Z) : lit n d = (Qc_of_Z n / Qc_of_Z d)%Qc.
Proof. reflexivity. Qed.


Lemma Qc_pydiv (x y : Qc) : y ≠ 0 → pydiv x y = Ok (x / y).
Proof. intros Hy. unfold pydiv. cbn. by rewrite bool_decide_eq_false_2. Qed.

(** The literals of the kernels, as sums of ones. *)
Lemma Qc_half : lit 1 2 = (1 / (1 + 1) : Qc).
Proof. by apply Qc_is_canon. Qed.

Lemma Qc_three : of_Z 3 = (1 + 1 + 1 : Qc).
Proof. by apply Qc_is_canon. Qed.

Lemma Qc_five_halves : lit 25 10 = ((1 + 1 + 1 + 1 + 1) / (1 + 1) : Qc).
Proof. by apply Qc_is_canon. Qed.

Lemma Qc_two_nonzero : (1 + 1 : Qc) ≠ 0.
Proof. intros Heq. by apply (f_equal (λ q, Qnum (this q))) in Heq. Qed.

(** In exact arithmetic each kernel is 0 at [rel_t = 0] and the
    constant-acceleration displacement at [rel_t = T]. *)
Lemma kernels_exact (v0 a T : Qc) :
  0 < T →
  let closed_form := v0 * T + 1 / 2 * a * (T * T) in
  (get_acc_pos_ao2 0 v0 a T = Ok 0
   ∧ get_acc_pos_ao4 0 v0 a T = Ok 0
   ∧ get_acc_pos_ao6 0 v0 a T = Ok 0)
  ∧ (get_acc_pos_ao2 T v0 a T = Ok closed_form
     ∧ get_acc_pos_ao4 T v0 a T = Ok closed_form
     ∧ get_acc_pos_ao6 T v0 a T = Ok closed_form).
Proof.
  intros HT closed_form.
  assert (T ≠ 0) as HT0 by (intros ->; by apply Qclt_not_le in HT).
  pose proof Qc_two_nonzero as H2.
  unfold get_acc_pos_ao2, get_acc_pos_ao4, get_acc_pos_ao6, closed_form.
  rewrite !Qc_pydiv by done.
  rewrite !Qc_half, Qc_three, Qc_five_halves.
  cbn [mbind res_bind fadd fsub fmul fdiv fopp fzero fone Qc_num].
  repeat split; f_equal; field; done.
Qed.

End Kernels.

Section FloatKernels.
Import Float.

Lemma finite_add_zero_l (z y : float) :
  fis_zero z = true → finite y = true → finite (z +. y) = true.
Proof. intros Hz Hy. apply (same_finite _ y); [by apply add_zero_l|done]. Qed.

Lemma finite_add_zero_r (x z : float) :
  finite x = true → fis_zero z = true → finite (x +. z) = true.
Proof. intros Hx Hz. apply (same_finite _ x); [by apply add_zero_r|done]. Qed.

Lemma float_zero_is_zero : fis_zero (fzero : float) = true.
Proof. reflexivity. Qed.

(** Follow a kernel polynomial at a zero argument: products with the
    zero are zeros, sums of a zero and a finite coefficient finite. *)
Local Ltac at_zero :=
  repeat match goal with
  | |- fis_zero fzero = true => exact float_zero_is_zero
  | H : fis_zero ?z = true |- fis_zero ?z = true => exact H
  | H : finite ?x = true |- finite ?x = true => exact H
  | |- fis_zero (_ *. _) = true => apply mul_zero_r
  | |- finite (_ *. _ +. _) = true => apply finite_add_zero_l
  | |- finite (_ +. _ *. _) = true => apply finite_add_zero_r
  | |- finite (_ *. _) = true => apply finite_zero
  end.

Lemma ao2_at_zero (z v0 a T : float) :
  fis_zero z = true → finite v0 = true → finite (lit 1 2 *. a) = true →
  ∃ r, get_acc_pos_ao2 z v0 a T = Ok r ∧ fis_zero r = true.
Proof. intros Hz Hv Ha. eexists. split; [reflexivity|]. at_zero. Qed.

Lemma ao4_at_zero (v0 a T : float) :
  fis_zero T = false → finite v0 = true →
  finite (a *. (fone /. T)) = true →
  finite (-. lit 1 2 *. (a *. (fone /. T) *. (fone /. T))) = true →
  ∃ r, get_acc_pos_ao4 fzero v0 a T = Ok r ∧ fis_zero r = true.
Proof.
  intros HT Hv H3 H4. unfold get_acc_pos_ao4, pydiv. rewrite HT.
  eexists. split; [reflexivity|]. at_zero.
Qed.

Lemma ao6_at_zero (v0 a T : float) :
  fis_zero T = false → finite v0 = true →
  finite (a *. (fone /. T) *. (fone /. T) *. (fone /. T) *. (fone /. T)) = true →
  finite (-. of_Z 3 *. (a *. (fone /. T) *. (fone /. T) *. (fone /. T))) = true →
  finite (lit 25 10 *. (a *. (fone /. T) *. (fone /. T))) = true →
  ∃ r, get_acc_pos_ao6 fzero v0 a T = Ok r ∧ fis_zero r = true.
Proof.
  intros HT Hv H6 H5 H4. unfold get_acc_pos_ao6, pydiv. rewrite HT.
  eexists. split; [reflexivity|]. at_zero.
Qed.

(** C4, as the code has it.  On floats: each kernel returns a zero at
    [rel_t = 0] when the start velocity and the coefficients of its
    polynomial are finite ([0.5*a] for order 2; [a/T] and
    [-0.5*a/T/T] for order 4; [a/T/T/T/T], [-3*a/T/T/T] and
    [2.5*a/T/T] for order 6, where [T] is not zero).  In exact
    arithmetic: for every start velocity, acceleration and positive
    duration [T], each kernel returns 0 at [rel_t = 0] and
    [v0*T + 0.5*a*T*T] at [rel_t = T].  On floats again: on each of
    the eight moves of the script the duration is positive and the
    three kernels return at [rel_t = T] a value within the relative
    tolerance [2**-50] of the closed form. *)
Theorem kernels_at_endpoints :
  (∀ v0 a T : float,
     finite v0 = true →
     (finite (lit 1 2 *. a) = true →
      ∃ r, get_acc_pos_ao2 fzero v0 a T = Ok r ∧ fis_zero r = true)
     ∧ (fis_zero T = false →
        finite (a *. (fone /. T)) = true →
        finite (-. lit 1 2 *. (a *. (fone /. T) *. (fone /. T))) = true →
        ∃ r, get_acc_pos_ao4 fzero v0 a T = Ok r ∧ fis_zero r = true)
     ∧ (fis_zero T = false →
        finite (a *. (fone /. T) *. (fone /. T) *. (fone /. T) *. (fone /. T)) = true →
        finite (-. of_Z 3 *. (a *. (fone /. T) *. (fone /. T) *. (fone /. T))) = true →
        finite (lit 25 10 *. (a *. (fone /. T) *. (fone /. T))) = true →
        ∃ r, get_acc_pos_ao6 fzero v0 a T = Ok r ∧ fis_zero r = true))
  ∧ (∀ v0 a T : Qc,
       (0 < T)%Qc →
       let closed_form := (v0 * T + 1 / 2 * a * (T * T))%Qc in
       (get_acc_pos_ao2 0%Qc v0 a T = Ok 0%Qc
        ∧ get_acc_pos_ao4 0%Qc v0 a T = Ok 0%Qc
        ∧ get_acc_pos_ao6 0%Qc v0 a T = Ok 0%Qc)
       ∧ (get_acc_pos_ao2 T v0 a T = Ok closed_form
          ∧ get_acc_pos_ao4 T v0 a T = Ok closed_form
          ∧ get_acc_pos_ao6 T v0 a T = Ok closed_form))
  ∧ Forall (λ m : move (F:=float),
      let v0 := m.1.1 in
      let a := move_accel m in
      let T := move_duration m in
      let tol := lit 1 (2 ^ 50) in
      flt fzero T = true
      ∧ within tol (get_acc_pos_ao2 T v0 a T) (displacement_closed_form v0 a T) = true
      ∧ within tol (get_acc_pos_ao4 T v0 a T) (displacement_closed_form v0 a T) = true
      ∧ within tol (get_acc_pos_ao6 T v0 a T) (displacement_closed_form v0 a T) = true)
      Moves.
Proof.
  split; [|split].
  - intros v0 a T Hv. split; [|split].
    + intros Ha. by apply ao2_at_zero.
    + intros HT H3 H4. by apply ao4_at_zero.
    + intros HT H6 H5 H4. by apply ao6_at_zero.
  - exact kernels_exact.
  - unfold Moves.
    repeat (constructor; [repeat split; vm_compute; reflexivity|]).
    constructor.
Qed.

(** The theorem at the second move of the script, 6.869 to 89.443 mm/s
    at 3000 mm/s^2: the order-6 kernel on floats at [rel_t = 0], and
    in exact arithmetic at [rel_t = T]. *)
Lemma kernels_at_endpoints_witness :
  (∃ r, get_acc_pos_ao6 fzero (lit 6869 1000) ACCEL
          (move_duration (lit 6869 1000, lit 89443 1000, None) : float) = Ok r
        ∧ fis_zero r = true)
  ∧ get_acc_pos_ao6 (lit 2 100) (lit 6869 1000) (of_Z 3000) (lit 2 100 : Qc)
    = Ok (lit 6869 1000 * lit 2 100
          + 1 / 2 * of_Z 3000 * (lit 2 100 * lit 2 100))%Qc.
Proof.
  destruct kernels_at_endpoints as (Hfloat & Hexact & _). split.
  - apply (Hfloat (lit 6869 1000) ACCEL
             (move_duration (lit 6869 1000, lit 89443 1000, None)));
      vm_compute; reflexivity.
  - apply (Hexact (lit 6869 1000) (of_Z 3000) (lit 2 100)). reflexivity.
Defined.

(** C4 fails on floats in both halves.  At [rel_t = T] the order-2
    kernel and the closed form differ in the last place on the fourth
    move of the script (89.443 to 17.361 mm/s).  At [rel_t = 0] the
    order-4 kernel returns a NaN for the positive duration
    [T = 2**-1074], whose reciprocal is infinite. *)
Lemma kernels_inexact_on_floats :
  (let v0 : float := lit 89443 1000 in
   let a : float := -. ACCEL in
   let T : float := move_duration (lit 89443 1000, lit 17361 1000, None) in
   flt fzero T = true
   ∧ ∃ r, get_acc_pos_ao2 T v0 a T = Ok r
          ∧ flt (v0 *. T +. lit 1 2 *. a *. (T *. T)) r = true)
  ∧ (let T : float := 0x1p-1074%float in
     flt fzero T = true
     ∧ get_acc_pos_ao4 fzero fzero ACCEL T = Ok nan
     ∧ fis_zero (nan : float) = false).
Proof.
  split.
  - split; [vm_compute; reflexivity|].
    eexists. split; vm_compute; reflexivity.
  - repeat split; vm_compute; reflexivity.
Qed.

End FloatKernels.

(** * Segments of zero duration *)

Section Cursor.
Context {F : Type} `{Num F}.

(** The [while] loop leaves the time cursor past the end of the
    segment, and touches neither accumulator. *)
Lemma emit_samples_exit fuel pos start_v accel move_t end_t st st' :
  emit_samples fuel pos start_v accel move_t end_t st = Some (Ok st') →
  fle (gs_t st') end_t = false
  ∧ gs_start_d st' = gs_start_d st
  ∧ gs_start_t st' = gs_start_t st.
Proof.
  revert st. induction fuel as [|fuel IH]; intros st; cbn; [done|].
  destruct (fle (gs_t st) end_t) eqn:Hle.
  - destruct (pos _ _ _ _) as [d|]; [|done].
    intros Hrun. by apply IH in Hrun.
  - by intros [= <-].
Qed.

Lemma gen_segment_cursor fuel pos st m st' :
  gen_segment fuel pos st m = Some (Ok st') →
  fle (gs_t st') (gs_start_t st') = false.
Proof.
  unfold gen_segment.
  destruct (emit_samples _ _ _ _ _ _ _) as [[st1|]|] eqn:Hrun; [|done..].
  apply emit_samples_exit in Hrun as (Hexit & _ & _).
  destruct (pos _ _ _ _) as [d|]; [|done].
  by intros [= <-].
Qed.

(** After any segment the time cursor is past the start time of the
    next one. *)
Lemma gen_segments_cursor fuel pos ms st st' :
  ms ≠ [] →
  gen_segments fuel pos st ms = Some (Ok st') →
  fle (gs_t st') (gs_start_t st') = false.
Proof.
  revert st. induction ms as [|m ms IH]; intros st Hne; [done|]. cbn.
  destruct (gen_segment fuel pos st m) as [[st1|]|] eqn:Hseg; [|done..].
  destruct ms as [|m' ms'].
  - cbn. intros [= <-]. by eapply gen_segment_cursor.
  - by apply IH.
Qed.

End Cursor.

Section ZeroDuration.
Import Float.

(** The acceleration of a move is [ACCEL], [-ACCEL] or 0: half of it
    is finite. *)
Lemma half_accel_finite (m : move) : finite (lit 1 2 *. move_accel m) = true.
Proof.
  destruct m as [[start_v end_v] move_t]. unfold move_accel.
  destruct (flt start_v end_v); [vm_compute; reflexivity|].
  destruct (flt end_v start_v); vm_compute; reflexivity.
Qed.

(** C7, as the code has it, on floats, for a segment whose given or
    derived duration is a zero and that follows at least one other
    segment.  With the order-2 kernel, which is the one
    [gen_positions] is bound to, and a finite start velocity, the
    segment emits no sample, leaves the time cursor where it was, and
    leaves the displacement accumulator and the time accumulator as
    they were, up to the sign of a zero.  With the order-4 or the
    order-6 kernel the segment emits no sample either, and then
    raises [ZeroDivisionError] from [1. / move_t]. *)
Theorem zero_duration_segment (fuel fuel' : nat) (ms : list move)
    (m : move (F:=float)) :
  ms ≠ [] →
  fis_zero (move_duration m) = true →
  (∀ st,
     gen_segments fuel get_acc_pos_ao2 gen_init ms = Some (Ok st) →
     finite m.1.1 = true →
     ∃ st',
       gen_segment (S fuel') get_acc_pos_ao2 st m = Some (Ok st')
       ∧ gs_out st' = gs_out st
       ∧ gs_t st' = gs_t st
       ∧ same (gs_start_d st') (gs_start_d st)
       ∧ same (gs_start_t st') (gs_start_t st))
  ∧ (∀ st,
       gen_segments fuel get_acc_pos_ao4 gen_init ms = Some (Ok st) →
       gen_segment (S fuel') get_acc_pos_ao4 st m = Some (Raise ZeroDivisionError))
  ∧ (∀ st,
       gen_segments fuel get_acc_pos_ao6 gen_init ms = Some (Ok st) →
       gen_segment (S fuel') get_acc_pos_ao6 st m = Some (Raise ZeroDivisionError)).
Proof.
  intros Hne Hdur.
  assert (∀ pos st,
            gen_segments fuel pos gen_init ms = Some (Ok st) →
            emit_samples (S fuel') pos m.1.1 (move_accel m) (move_duration m)
              (gs_start_t st +. move_duration m) st
            = Some (Ok st)) as Hloop.
  { intros pos st Hrun.
    apply gen_segments_cursor in Hrun as Hcur; [|done].
    pose proof (add_zero_r (gs_start_t st) (move_duration m) Hdur) as Hend.
    cbn [emit_samples]. by rewrite (fle_same _ _ _ Hend), Hcur. }
  split; [|split].
  - intros st Hrun Hv.
    destruct (ao2_at_zero (move_duration m) m.1.1 (move_accel m) (move_duration m)
                Hdur Hv (half_accel_finite m)) as (d & Hd & Hdz).
    unfold gen_segment. rewrite (Hloop _ _ Hrun), Hd.
    eexists. split; [reflexivity|]. cbn [gs_out gs_t gs_start_d gs_start_t].
    split; [done|]. split; [done|]. split; by apply add_zero_r.
  - intros st Hrun. unfold gen_segment. rewrite (Hloop _ _ Hrun).
    unfold get_acc_pos_ao4, pydiv. by rewrite Hdur.
  - intros st Hrun. unfold gen_segment. rewrite (Hloop _ _ Hrun).
    unfold get_acc_pos_ao6, pydiv. by rewrite Hdur.
Qed.

(** The theorem after the first move of the script cut to one sample
    period, on a move from 5 to 5 mm/s with a derived duration:
    nothing is emitted with the order-2 kernel. *)
Lemma zero_duration_segment_witness :
  ∃ st',
    gen_segment 1 get_acc_pos_ao2
      (GenState [0; 0]%float 0%float (0%float +. lit 1 10000)
                (0%float +. SEG_TIME +. SEG_TIME))
      (5, 5, None)%float
    = Some (Ok st')
    ∧ gs_out st' = [0; 0]%float.
Proof.
  destruct (zero_duration_segment 3 0 [(0%float, 0%float, Some (lit 1 10000))]
              (5, 5, None)%float) as (Hao2 & _);
    [done|vm_compute; reflexivity|].
  destruct (Hao2 (GenState [0; 0]%float 0%float (0%float +. lit 1 10000)
                           (0%float +. SEG_TIME +. SEG_TIME)))
    as (st' & Hrun & Hout & _); [vm_compute; reflexivity..|].
  exists st'. split; [exact Hrun|exact Hout].
Defined.

(** C7 fails in three ways.  At the head of the move list the cursor
    [t = 0] is not past the end time 0, and a zero-duration segment
    emits one sample.  With the order-4 kernel a zero-duration segment
    that follows another one raises [ZeroDivisionError] ([1. / move_t]).
    With an infinite start velocity the displacement of the segment is
    [inf * 0], and the displacement accumulator turns from 0 into a
    NaN. *)
Lemma zero_duration_segment_fails :
  (fis_zero (move_duration ((0, 0, Some 0) : move (F:=float))%float) = true
   ∧ gen_positions_of 2 get_acc_pos_ao2 [(0, 0, Some 0)]%float
     = Some (Ok [0%float]))
  ∧ (gen_segments 3 get_acc_pos_ao4 gen_init [(0%float, 0%float, Some (lit 1 10000))]
     = Some (Ok (GenState [0; 0]%float 0%float (0%float +. lit 1 10000)
                          (0%float +. SEG_TIME +. SEG_TIME)))
     ∧ gen_segment 1 get_acc_pos_ao4
         (GenState [0; 0]%float 0%float (0%float +. lit 1 10000)
                   (0%float +. SEG_TIME +. SEG_TIME))
         (5, 5, None)%float
       = Some (Raise ZeroDivisionError))
  ∧ (gen_segments 3 get_acc_pos_ao2 gen_init [(0%float, 0%float, Some (lit 1 10000))]
     = Some (Ok (GenState [0; 0]%float 0%float (0%float +. lit 1 10000)
                          (0%float +. SEG_TIME +. SEG_TIME)))
     ∧ gen_segment 1 get_acc_pos_ao2
         (GenState [0; 0]%float 0%float (0%float +. lit 1 10000)
                   (0%float +. SEG_TIME +. SEG_TIME))
         (infinity, infinity, Some 0%float)
       = Some (Ok (GenState [0; 0]%float nan (0%float +. lit 1 10000)
                            (0%float +. SEG_TIME +. SEG_TIME)))).
Proof. repeat split; vm_compute; reflexivity. Qed.

End ZeroDuration.

(** * Constant inputs *)

Section WeightSums.











End WeightSums.

Section FilledExt.
Context {F : Type} `{Num F}.

Lemma filled_ext d n (v v' : Z → F) :
  (∀ i, d ≤ i < n - d → v i = v' i) → filled d n v = filled d n v'.
Proof.
  intros Hv. unfold filled, partial. apply list_fmap_ext.
  intros _ k _.
  destruct (Z.leb_spec d k), (Z.ltb_spec k (n - d)); cbn; try done.
  apply Hv. lia.
Qed.








End FilledExt.

Section ExactConstant.
Import Exact.
Local Open Scope Qc_scope.








End ExactConstant.

Section ExactConstantFilters.
Import Exact.
Local Open Scope Qc_scope.





End ExactConstantFilters.

Section ConstantInput.
Import Float Exact.




End ConstantInput.

(** * The pipeline on the move list of the script *)

Section Evaluation.
Context {F : Type} `{Num F}.

Lemma gen_deriv_ok (sub : Z → Z → res Z) (data : list F) :
  sub_exact sub →
  gen_deriv_sub sub data
  = Ok (fzero :: (deriv_value data <$> range 0 (len data - 1))).
Proof.
  intros Hsub. unfold gen_deriv_sub.
  rewrite (comprehension_ok _ (deriv_value data)); [done|].
  intros i Hi. apply elem_of_seqZ in Hi.
  rewrite !(getitem_at sub Hsub) by lia. done.
Qed.

Lemma gen_deriv_length (sub : Z → Z → res Z) (data : list F) :
  sub_exact sub → data ≠ [] →
  ∃ out, gen_deriv_sub sub data = Ok out ∧ length out = length data.
Proof.
  intros Hsub Hne. eexists. split; [by apply gen_deriv_ok|].
  cbn. unfold range, len. rewrite length_fmap, length_seqZ.
  destruct data; [done|]. cbn. lia.
Qed.

Lemma weighted2_value_fast_eq (positions : list F) (offset : Z) (weight : F) (i : Z) :
  weighted2_value positions offset weight i
  = weighted2_value_fast positions offset weight (weighted2_weights offset) i.
Proof.
  unfold weighted2_value, weighted2_value_fast, weighted2_weights, range.
  f_equal. f_equal.
  replace (i + offset - (i - offset)) with (2 * offset) by lia.
  replace (i - offset) with (i + - offset) at 2 by lia.
  rewrite <- fmap_add_seqZ.
  rewrite !zip_with_fmap_r. apply zip_with_ext; [|done..].
  intros pj d. cbn. by replace (i + d - i) with d by lia.
Qed.

Lemma spring_raw_value_fast_eq (g : spring_globals) (positions : list F) (i : Z) :
  1 ≤ i → i + 1 < len positions →
  spring_raw_value g positions i
  = spring_raw_value_fast
      (SPRING_ADVANCE g *. INV_SEG_TIME *. INV_SEG_TIME)
      (RESISTANCE_ADVANCE g *. INV_SEG_TIME) (of_Z 2) positions i.
Proof.
  intros Hi Hn. unfold spring_raw_value, spring_raw_value_fast, at_.
  destruct (lookup_lt_is_Some_2 positions (Z.to_nat (i - 1))) as [pm Hm];
    [unfold len in Hn; lia|].
  destruct (lookup_lt_is_Some_2 positions (Z.to_nat i)) as [p0 H0];
    [unfold len in Hn; lia|].
  destruct (lookup_lt_is_Some_2 positions (Z.to_nat (i + 1))) as [pp Hp];
    [unfold len in Hn; lia|].
  rewrite Hm, H0, Hp. cbn.
  rewrite (drop_S _ _ _ Hm).
  replace (S (Z.to_nat (i - 1))) with (Z.to_nat i) by lia.
  rewrite (drop_S _ _ _ H0).
  replace (S (Z.to_nat i)) with (Z.to_nat (i + 1)) by lia.
  rewrite (drop_S _ _ _ Hp). done.
Qed.

End Evaluation.

(** ** The one-pass forms compute what the model computes *)

Section LinearForms.
Context {F : Type} `{Num F}.

Lemma emit_samples_rev_ok fuel pos start_v accel move_t end_t (st : gen_state (F:=F)) :
  emit_samples fuel pos start_v accel move_t end_t (unrev st)
  = unrev_result (emit_samples_rev fuel pos start_v accel move_t end_t st).
Proof.
  revert st. induction fuel as [|fuel IH]; intros st; [done|].
  cbn [emit_samples emit_samples_rev]. unfold unrev at 1 2 3. cbn [gs_t gs_start_t gs_start_d gs_out].
  destruct (fle (gs_t st) end_t); [|done].
  destruct (pos _ _ _ _) as [d|e]; [|done].
  rewrite <- IH. f_equal. unfold unrev. cbn [gs_t gs_start_t gs_start_d gs_out].
  by rewrite reverse_cons.
Qed.

Lemma gen_segment_rev_ok fuel pos (st : gen_state (F:=F)) (m : move) :
  gen_segment fuel pos (unrev st) m = unrev_result (gen_segment_rev fuel pos st m).
Proof.
  unfold gen_segment, gen_segment_rev.
  change (gs_start_t (unrev st)) with (gs_start_t st).
  rewrite emit_samples_rev_ok.
  destruct (emit_samples_rev _ _ _ _ _ _ _) as [[st'|e]|]; cbn; [|done..].
  by destruct (pos _ _ _ _).
Qed.

Lemma gen_segments_rev_ok fuel pos (st : gen_state (F:=F)) (ms : list move) :
  gen_segments fuel pos (unrev st) ms = unrev_result (gen_segments_rev fuel pos st ms).
Proof.
  revert st. induction ms as [|m ms IH]; intros st; [done|].
  cbn [gen_segments gen_segments_rev]. rewrite gen_segment_rev_ok.
  destruct (gen_segment_rev _ _ _ _) as [[st'|e]|]; cbn; [|done..].
  apply IH.
Qed.

Lemma gen_positions_rev_ok fuel : gen_positions fuel = gen_positions_rev fuel.
Proof.
  unfold gen_positions, gen_positions_of, gen_positions_rev.
  change gen_init with (unrev gen_init). rewrite gen_segments_rev_ok.
  by destruct (gen_segments_rev _ _ _ _) as [[st'|e]|].
Qed.

Lemma tail_drop (l : list F) (m : nat) : tail (drop m l) = drop (S m) l.
Proof.
  revert l. induction m as [|m IH]; intros [|x l]; cbn; done.
Qed.

Lemma sliding_seqZ (g : list F → F) (n : nat) (l : list F) (m : nat) :
  sliding g n (drop m l)
  = (λ k, g (drop (Z.to_nat k) l)) <$> seqZ (Z.of_nat m) (Z.of_nat n).
Proof.
  revert m. induction n as [|n IH]; intros m; [done|].
  rewrite seqZ_cons by lia. cbn [sliding fmap list_fmap].
  rewrite Nat2Z.id. f_equal.
  rewrite tail_drop, IH. f_equal. f_equal; lia.
Qed.

Lemma fmap_seqZ_const (f : Z → F) (c : F) (m n : Z) :
  (∀ k, m ≤ k < m + n → f k = c) → f <$> seqZ m n = replicate (Z.to_nat n) c.
Proof.
  intros Hf. rewrite <- (length_seqZ m n).
  apply const_fmap. intros i k Hk.
  apply list_elem_of_lookup_2, elem_of_seqZ in Hk. by apply Hf.
Qed.

Lemma filled_sliding (g : list F → F) (l : list F) (v : Z → F) (d c n : Z) :
  0 ≤ c ≤ d → 2 * d ≤ n →
  (∀ i, d ≤ i < n - d → v i = g (drop (Z.to_nat (i - c)) l)) →
  filled d n v
  = replicate (Z.to_nat d) fzero
    ++ sliding g (Z.to_nat (n - 2 * d)) (drop (Z.to_nat (d - c)) l)
    ++ replicate (Z.to_nat d) fzero.
Proof.
  intros Hc Hn Hv. unfold filled, partial.
  assert (seqZ 0 n = seqZ 0 d ++ seqZ d (n - 2 * d) ++ seqZ (n - d) d) as ->.
  { replace n with (d + ((n - 2 * d) + d)) at 1 by lia.
    rewrite !seqZ_app by lia. do 3 f_equal; lia. }
  rewrite !fmap_app.
  f_equal; [|f_equal].
  - apply fmap_seqZ_const. intros k Hk.
    destruct (Z.leb_spec d k); [lia|done].
  - rewrite sliding_seqZ, !Z2Nat.id by lia.
    replace (seqZ d (n - 2 * d)) with (Z.add c <$> seqZ (d - c) (n - 2 * d))
      by (rewrite fmap_add_seqZ; f_equal; lia).
    rewrite <- list_fmap_compose.
    apply list_fmap_ext. intros j k Hk.
    apply list_elem_of_lookup_2, elem_of_seqZ in Hk. cbn.
    destruct (Z.ltb_spec (c + k) (n - d)), (Z.leb_spec d (c + k)); cbn; try lia.
    rewrite Hv by lia. do 2 f_equal. lia.
  - apply fmap_seqZ_const. intros k Hk.
    destruct (Z.ltb_spec k (n - d)); [lia|]. by rewrite andb_false_r.
Qed.

Context `{Trans F}.

Lemma spring_run_ok (st : spring_state (F:=F)) (positions : list F) :
  sp_out (foldl spring_step st positions)
  = sp_out st ++ spring_run (sp_head_pos st) (sp_head_v st) positions.
Proof.
  revert st. induction positions as [|p ps IH]; intros st.
  - cbn. by rewrite app_nil_r.
  - cbn [foldl spring_run]. rewrite IH. cbn. by rewrite <- app_assoc.
Qed.

Lemma estimate_spring_run (positions : list F) :
  estimate_spring positions = spring_run fzero fzero positions.
Proof. unfold estimate_spring. by rewrite spring_run_ok. Qed.

End LinearForms.

Section FloatPipeline.
Import Float.

Lemma float_smooth_offset :
  time_to_index (SMOOTH_TIME *. lit 1 2 : float) = Ok 95.
Proof. vm_compute. reflexivity. Qed.

Lemma len_filled d n (v : Z → float) : 0 ≤ n → len (filled d n v) = n.
Proof. intros Hn. unfold len, filled. rewrite length_partial. lia. Qed.

Lemma gen_updated_position_ok (p : list float) :
  gen_updated_position p = Ok (upd_positions_value p).
Proof.
  pose proof resolve_index_exact as Hpy.
  unfold gen_updated_position, calc_spring_raw, calc_weighted2.
  rewrite (calc_spring_raw_ok _ Hpy 500 float_margin globals_loaded p ltac:(lia)).
  cbn [mbind res_bind].
  rewrite (calc_weighted2_ok _ Hpy 500 float_margin _ _ 95 float_smooth_offset);
    [|lia|by apply float_fits_upto|vm_compute; reflexivity].
  f_equal. unfold upd_positions_value. cbn zeta.
  rewrite len_filled by (unfold len; lia).
  replace (filled 500 (len p) (spring_raw_value globals_loaded p))
    with (filled 500 (len p)
            (spring_raw_value_fast
               (SPRING_ADVANCE globals_loaded *. INV_SEG_TIME *. INV_SEG_TIME)
               (RESISTANCE_ADVANCE globals_loaded *. INV_SEG_TIME) (of_Z 2) p)).
  - apply filled_ext. intros i _. apply weighted2_value_fast_eq.
  - apply filled_ext. intros i Hi. symmetry.
    apply spring_raw_value_fast_eq; lia.
Qed.

Lemma times_ok (p : list float) :
  len p < 2 ^ 53 →
  ∃ times : list float,
    comprehension (λ i, x ← pyfloat i; Ok (SEG_TIME *. x)) (range 0 (len p))
    = Ok times
    ∧ length times = length p.
Proof.
  intros Hp. exists ((λ i, SEG_TIME *. of_Z i) <$> range 0 (len p)). split.
  - apply comprehension_ok. intros i Hi. apply elem_of_seqZ in Hi.
    cbn beta. unfold pyfloat. rewrite (float_fits_upto (2 ^ 53)); [done|done|lia].
  - unfold range, len. rewrite length_fmap, length_seqZ. lia.
Qed.

Lemma length_estimate_spring (p : list float) :
  length (estimate_spring p) = length p.
Proof. by destruct (estimate_spring_updates p) as (_ & Hlen & _). Qed.

Lemma plot_lists_ok (p : list float) :
  1000 ≤ len p < 2 ^ 53 →
  ∃ h,
    plot_lists p = Ok h
    ∧ length h = 11%nat
    ∧ (∀ r, (r < 11)%nat → len (deref h r) = len p - 1000)
    ∧ deref h r_spring_diff_orig
      = take (Z.to_nat (len p - 1000))
          (zip_with (λ n o, n -. o) (estimate_spring p) p)
    ∧ deref h r_spring_diff_upd
      = take (Z.to_nat (len p - 1000))
          (zip_with (λ n o, n -. o) (estimate_spring (upd_positions_value p)) p).
Proof.
  intros Hp.
  pose proof resolve_index_exact as Hpy.
  assert (∀ l : list float, length l = length p → l ≠ []) as Hne
    by (intros [|] Hl; [unfold len in Hp; cbn in Hl; lia|done]).
  unfold plot_lists, gen_deriv.
  destruct (gen_deriv_length _ p Hpy (Hne _ eq_refl)) as (velocities & -> & Hv).
  cbn [mbind res_bind].
  destruct (gen_deriv_length _ velocities Hpy (Hne _ Hv)) as (accels & -> & Ha).
  rewrite Hv in Ha.
  cbn [mbind res_bind].
  rewrite gen_updated_position_ok. cbn [mbind res_bind].
  assert (length (upd_positions_value p) = length p) as Hu.
  { unfold upd_positions_value, filled. cbn zeta. rewrite length_partial.
    unfold len. lia. }
  destruct (gen_deriv_length _ _ Hpy (Hne _ Hu)) as (upd_velocities & -> & Huv).
  rewrite Hu in Huv.
  cbn [mbind res_bind].
  destruct (gen_deriv_length _ upd_velocities Hpy (Hne _ Huv)) as (upd_accels & -> & Hua).
  rewrite Huv in Hua.
  cbn [mbind res_bind].
  pose proof (length_estimate_spring p) as Hso.
  pose proof (length_estimate_spring (upd_positions_value p)) as Hsu.
  rewrite Hu in Hsu.
  destruct (gen_deriv_length _ _ Hpy (Hne _ Hso)) as (head_velocities & -> & Hhv).
  rewrite Hso in Hhv.
  cbn [mbind res_bind].
  destruct (gen_deriv_length _ head_velocities Hpy (Hne _ Hhv)) as (head_accels & -> & Hha).
  rewrite Hhv in Hha.
  cbn [mbind res_bind].
  destruct (gen_deriv_length _ _ Hpy (Hne _ Hsu)) as (head_upd_velocities & -> & Hhuv).
  rewrite Hsu in Hhuv.
  cbn [mbind res_bind].
  destruct (gen_deriv_length _ head_upd_velocities Hpy (Hne _ Hhuv))
    as (head_upd_accels & -> & Hhua).
  rewrite Hhuv in Hhua.
  cbn [mbind res_bind].
  destruct (times_ok p ltac:(lia)) as (times & -> & Ht).
  cbn [mbind res_bind].
  assert (length (zip_with (λ n o, n -. o) (estimate_spring p) p) = length p)
    as Hdo by (rewrite length_zip_with, Hso; lia).
  assert (length (zip_with (λ n o, n -. o)
                    (estimate_spring (upd_positions_value p)) p) = length p)
    as Hdu by (rewrite length_zip_with, Hsu; lia).
  set (sdo := zip_with (λ n o, n -. o) (estimate_spring p) p) in Hdo |- * .
  set (sdu := zip_with (λ n o, n -. o)
                (estimate_spring (upd_positions_value p)) p) in Hdu |- * .
  match goal with |- ∃ h, trim_lists ?refs ?h0 = _ ∧ _ =>
    destruct (trim_lists_ok refs h0 1000 (len p) float_cut) as (h & Hrun & Hlen & Hin & _)
  end.
  - done.
  - intros r Hr. unfold len.
    repeat (apply elem_of_cons in Hr as [->|Hr]; [cbn; congruence|]).
    by apply elem_of_nil in Hr.
  - lia.
  - exists h. split; [exact Hrun|]. split; [by rewrite Hlen|].
    assert (∀ r, (r < 11)%nat →
              r ∈ [r_times; r_velocities; r_accels;
                   r_upd_velocities; r_upd_velocities; r_upd_accels;
                   r_spring_diff_orig; r_spring_diff_upd;
                   r_head_velocities; r_head_upd_velocities;
                   r_head_accels; r_head_upd_accels]) as Hrefs.
    { intros r Hr. do 11 (destruct r as [|r]; [repeat constructor|]). lia. }
    split; [|split].
    + intros r Hr. rewrite (Hin r (Hrefs r Hr)).
      unfold len. rewrite length_take.
      assert (length (deref [times; velocities; accels; upd_velocities;
                upd_accels; sdo; sdu;
                head_velocities; head_upd_velocities; head_accels;
                head_upd_accels] r) = length p) as ->; [|unfold len in Hp; lia].
      do 11 (destruct r as [|r]; [cbn; congruence|]). lia.
    + by rewrite (Hin r_spring_diff_orig (Hrefs r_spring_diff_orig ltac:(unfold r_spring_diff_orig; lia))).
    + by rewrite (Hin r_spring_diff_upd (Hrefs r_spring_diff_upd ltac:(unfold r_spring_diff_upd; lia))).
Qed.

Lemma upd_positions_fast_ok (p : list float) :
  1000 ≤ len p → upd_positions_value p = upd_positions_fast p.
Proof.
  intros Hp. unfold upd_positions_value, upd_positions_fast. cbv zeta.
  set (sa := SPRING_ADVANCE globals_loaded *. INV_SEG_TIME *. INV_SEG_TIME).
  set (ra := RESISTANCE_ADVANCE globals_loaded *. INV_SEG_TIME).
  rewrite (filled_sliding (spring_raw_window sa ra (of_Z 2)) p
             (spring_raw_value_fast sa ra (of_Z 2) p) 500 1 (len p));
    [|lia|lia|done].
  set (raw := replicate _ _ ++ _ ++ _).
  apply filled_sliding; [lia|lia|].
  intros i Hi. unfold weighted2_value_fast, weighted2_window, window.
  do 2 f_equal.
  replace (Z.to_nat (2 * 95)) with (length (weighted2_weights (F:=float) 95)).
  - apply zip_with_take_l.
  - unfold weighted2_weights. by rewrite length_fmap, length_seqZ.
Qed.

End FloatPipeline.

Section FloatAcceptance.
Import Float.

Lemma plot_motion_of (fuel : nat) (p : list float) :
  gen_positions fuel = Some (Ok p) → plot_motion fuel = Some (plot_lists p).
Proof. intros Hgen. unfold plot_motion. rewrite Hgen. reflexivity. Qed.

(** The generator returns, and its positions pass the check: both by
    evaluation. *)
Lemma generated_positions_checked :
  ∃ p : list float,
    gen_positions_rev 10000 = Some (Ok p) ∧ deviation_check p = true.
Proof.
  eexists. split.
  - vm_compute. reflexivity.
  - vm_compute. reflexivity.
Qed.

(** C1: on the move list of the script, with [ACCEL = 3000],
    [SPRING_FREQ = 35], [DAMPING = 30] and [SEG_TIME = 0.0001], the
    generator returns its positions (10000 iterations are enough for
    every segment), [plot_motion] returns its eleven lists, each one
    trimmed to [len(positions) - 1000] samples,
    [1000 = time_to_index(2*MARGIN_TIME) = time_to_index(0.1)], and the
    largest absolute value of [spring_diff_upd], the estimated head
    position of the compensated trajectory minus the commanded
    position, is strictly below that of [spring_diff_orig], the same
    for the uncompensated trajectory. *)
Theorem compensation_reduces_peak_deviation :
  ∃ (positions : list float) (h : list (list float)),
    gen_positions 10000 = Some (Ok positions)
    ∧ plot_motion 10000 = Some (Ok h)
    ∧ time_to_index (of_Z 2 *. MARGIN_TIME : float) = Ok 1000
    ∧ time_to_index (lit 1 10 : float) = Ok 1000
    ∧ length h = 11%nat
    ∧ Forall (λ l, len l = len positions - 1000) h
    ∧ flt (peak (deref h r_spring_diff_upd))
          (peak (deref h r_spring_diff_orig)) = true.
Proof.
  destruct generated_positions_checked as (p & Hrev & Hcheck).
  pose proof (eq_trans (gen_positions_rev_ok 10000) Hrev) as Hgen. clear Hrev.
  unfold deviation_check in Hcheck. cbv zeta in Hcheck.
  apply andb_prop in Hcheck as [Hlen Hpeak].
  apply andb_prop in Hlen as [Hlo Hhi].
  apply Z.leb_le in Hlo. apply Z.ltb_lt in Hhi.
  destruct (plot_lists_ok p (conj Hlo Hhi)) as (h & Hrun & Hh & Hall & Horig & Hupd).
  exists p, h.
  split; [exact Hgen|].
  split; [rewrite (plot_motion_of 10000 p Hgen), Hrun; reflexivity|].
  split; [exact float_cut|]. split; [vm_compute; reflexivity|].
  split; [exact Hh|]. split.
  - clear Hpeak. apply Forall_lookup. intros r l Hl.
    apply lookup_lt_Some in Hl as Hr. rewrite Hh in Hr.
    rewrite <- (Hall r Hr). unfold deref. rewrite Hl. reflexivity.
  - rewrite Horig, Hupd, !estimate_spring_run, (upd_positions_fast_ok p Hlo).
    exact Hpeak.
Qed.

End FloatAcceptance.
